(** * melonJS numeric utilities and the input flag: embedding and properties

    The JavaScript sources are [math] (a flat set of numeric helpers) and
    [input/input.js] (a barrel file with one exported flag).  A JavaScript
    Number is an IEEE 754 binary64 value, so the embedding uses Rocq's
    primitive [float]s, whose operations are specified by [SpecFloat] at
    precision 53 and maximal exponent 1024.  The 32-bit integers that the
    bitwise operators work on are integers of [Z] with the wrap-around written
    out. *)

From Stdlib Require Import ZArith Floats Bool List Lia Uint63.
Import ListNotations.

Set Warnings "-inexact-float".

Local Open Scope Z_scope.

(** ** JavaScript Numbers and the operators the sources use *)
Module Number.

(** The mathematical value of a finite Number, truncated toward zero
    (ECMAScript [truncate(ℝ(x))]); NaN, the zeros and the infinities give 0,
    as the first step of ToInt32 asks. *)
Definition truncate (x : float) : Z :=
  match Prim2SF x with
  | S754_finite s m e => cond_Zopp s (Z.shiftl (Zpos m) e)
  | _ => 0
  end.

(** An integer modulo 2^32, read as a signed 32-bit integer. *)
Definition wrap32 (i : Z) : Z :=
  let k := i mod 2 ^ 32 in
  if 2 ^ 31 <=? k then k - 2 ^ 32 else k.

(** ECMAScript ToInt32. *)
Definition ToInt32 (x : float) : Z := wrap32 (truncate x).

(** The Number of an integer of magnitude below 2^63; it is exact below
    2^53, and 0 gives +0. *)
Definition Z2F (z : Z) : float :=
  if z <? 0 then (- of_uint63 (Uint63.of_Z (- z)))%float
  else of_uint63 (Uint63.of_Z z).

(** The bitwise operators: both operands go through ToInt32, the result is
    the Number of a signed 32-bit integer. *)
Definition bitand (x y : float) : float := Z2F (Z.land (ToInt32 x) (ToInt32 y)).
Definition bitor (x y : float) : float := Z2F (Z.lor (ToInt32 x) (ToInt32 y)).
Definition bitnot (x : float) : float := Z2F (Z.lnot (ToInt32 x)).

(** [x >> k], the sign-propagating right shift; the count is taken modulo 32. *)
Definition sar (x : float) (k : Z) : float := Z2F (Z.shiftr (ToInt32 x) (k mod 32)).

(** [x > y] is [y < x]. *)
Definition gtb (x y : float) : bool := (y <? x)%float.

(** Unary plus, ToNumber, is the identity on a Number. *)
Definition unary_plus (x : float) : float := x.

(** [Math.floor]: the greatest integral Number not above [x]. *)
Definition Math_floor (x : float) : float :=
  match Prim2SF x with
  | S754_finite s m e =>
      if 0 <=? e then x else Z2F (Z.shiftl (cond_Zopp s (Zpos m)) e)
  | _ => x
  end.

(** [Math.abs]. *)
Definition Math_abs (x : float) : float := abs x.

(** [Math.PI], the Number nearest to pi (3.141592653589793). *)
Definition Math_PI : float := 0x1.921fb54442d18p+1.

(** The binary64 representation of an integer of magnitude below 2^53:
    a 53-bit mantissa and the matching exponent. *)
Definition canon_m (p : positive) : positive :=
  Z.to_pos (Zpos p * 2 ^ (prec - Zpos (digits2_pos p))).

Definition canon_e (p : positive) : Z := Zpos (digits2_pos p) - prec.

Definition canonZ (z : Z) : spec_float :=
  match z with
  | Z0 => S754_zero false
  | Zpos p => S754_finite false (canon_m p) (canon_e p)
  | Zneg p => S754_finite true (canon_m p) (canon_e p)
  end.

(** A reference [Math.pow] for integral exponents, by repeated
    multiplication and one division for a negative exponent; other exponents
    give NaN.  It instantiates the ambient [Math.pow] in closed examples. *)
Fixpoint pow_nat (b : float) (n : nat) : float :=
  match n with
  | O => 1%float
  | S k => (b * pow_nat b k)%float
  end.

Definition Math_pow_ref (b e : float) : float :=
  let n := truncate e in
  if (Z2F n =? e)%float then
    if 0 <=? n then pow_nat b (Z.to_nat n)
    else (1 / pow_nat b (Z.to_nat (- n)))%float
  else nan.

End Number.

Declare Scope js_scope.
Delimit Scope js_scope with js.
Infix "&" := Number.bitand (at level 40, left associativity) : js_scope.
Infix "|||" := Number.bitor (at level 50, left associativity) : js_scope.
Infix ">>" := Number.sar (at level 30, no associativity) : js_scope.
Infix "===" := PrimFloat.eqb (at level 70, no associativity) : js_scope.
Infix ">?" := Number.gtb (at level 70, no associativity) : js_scope.
Notation "~~ x" := (Number.bitnot (Number.bitnot x)) (at level 30, right associativity) : js_scope.

(** ** The math helpers (src/unnamed/part_000) *)
Module math.
Import Number.
Local Open Scope float_scope.
Local Open Scope js_scope.

Definition DEG_TO_RAD : float := Math_PI / 180.0.

Definition RAD_TO_DEG : float := 180.0 / Math_PI.

Definition TAU : float := Math_PI * 2.

Definition ETA : float := Math_PI * 0.5.

Definition EPSILON : float := 0.000001.

Definition isPowerOfTwo (val : float) : bool :=
  (val & (val - 1)) === 0.

Definition isPowerOfFour (val : float) : bool :=
  if (val === 0) || (val === 2) || (val === 3) then false
  else if val === 1 then true
  else if (val & (val - 1)) === 0 then
    if (val & 0xaaaaaaaa) === 0 then true else false
  else false.

Definition nextPowerOfTwo (val : float) : float :=
  let val := val - 1 in
  let val := val ||| (val >> 1) in
  let val := val ||| (val >> 2) in
  let val := val ||| (val >> 4) in
  let val := val ||| (val >> 8) in
  let val := val ||| (val >> 16) in
  let val := val + 1 in
  val.

Definition degToRad (angle : float) : float := angle * DEG_TO_RAD.

Definition radToDeg (radians : float) : float := radians * RAD_TO_DEG.

Definition clamp (val low high : float) : float :=
  if val <? low then low else if val >? high then high else unary_plus val.

(** [Math.random()] is ambient: [r] is the sample the call draws. *)
Definition random (r : float) (min max : float) : float :=
  ~~ (r * (max - min)) + min.

(** [r] is the sample [Math.random()] draws. *)
Definition randomFloat (r : float) (min max : float) : float :=
  r * (max - min) + min.

Section AmbientPow.

(** The platform's [Math.pow]. *)
Variable Math_pow : float -> float -> float.

(** [dec] is optional and defaults to 0. *)
Definition round (num : float) (dec : option float) : float :=
  let dec := match dec with Some d => d | None => 0 end in
  let powres := Math_pow 10 dec in
  ~~ (0.5 + num * powres) / powres.

(** [precision] is optional and defaults to 2. *)
Definition toBeCloseTo (expected actual : float) (precision : option float) : bool :=
  let precision := match precision with Some p => p | None => 2 end in
  Math_abs (expected - actual) <? Math_pow 10 (- precision) / 2.


Definition pow (n : float) : float := Math_pow n 2.

End AmbientPow.

End math.

(** ** The input module (src/src/input/input.js) *)
Module input.

(** How a module-level binding is declared: [let] bindings can be assigned
    again, [const] bindings cannot. *)
Inductive declaration := Let | Const.

Record binding := { decl : declaration; value : bool }.

(** [export let preventDefault = true;] *)
Definition preventDefault : binding := {| decl := Let; value := true |}.

Definition mutable (b : binding) : bool :=
  match decl b with Let => true | Const => false end.

(** Assignment to a binding: it takes effect on a [let] binding only. *)
Definition assign (b : binding) (v : bool) : option binding :=
  match decl b with
  | Let => Some {| decl := Let; value := v |}
  | Const => None
  end.

End input.

(** ** Notions the properties are stated with *)
Module Spec.

(** The 32 low bits of an integer, least significant first: its binary
    representation as a 32-bit word (two's complement for a negative one). *)
Definition bits32 (v : Z) : list bool :=
  map (fun i => Z.testbit v (Z.of_nat i)) (seq 0 32).

(** The number of set bits of that word. *)
Definition popcount32 (v : Z) : nat :=
  length (filter (fun b : bool => b) (bits32 v)).

(** [v] is [b^k] for some natural [k]. *)
Definition power_of (b v : Z) : Prop := exists k, 0 <= k /\ v = b ^ k.

(** One step [val |= val >> k] of the bit smearing, on a 32-bit integer. *)
Definition lor_shr (a k : Z) : Z := Z.lor a (Z.shiftr a k).

(** The five steps, with shifts 1, 2, 4, 8 and 16. *)
Definition smear (a : Z) : Z :=
  lor_shr (lor_shr (lor_shr (lor_shr (lor_shr a 1) 2) 4) 8) 16.

(** The [w] bits at and below position [L] of [a] are set. *)
Definition run (L w a : Z) : Prop :=
  forall j, 0 <= j -> L - w < j <= L -> Z.testbit a j = true.

End Spec.

(** ** Facts about binary64 arithmetic on integers *)
Module NumberFacts.
Import Number.

(** *** Digits and shifts of positive numbers *)

Lemma digits2_bounds (p : positive) :
  2 ^ (Zpos (digits2_pos p) - 1) <= Zpos p < 2 ^ Zpos (digits2_pos p).
Proof.
  induction p as [p IH | p IH | ]; simpl digits2_pos;
    [ rewrite Pos2Z.inj_succ, (Pos2Z.inj_xI p) | rewrite Pos2Z.inj_succ, (Pos2Z.inj_xO p)
    | split; [ discriminate | reflexivity ] ].
  all: pose proof (Pos2Z.is_pos (digits2_pos p)) as Hd.
  all: replace (Z.succ (Zpos (digits2_pos p)) - 1) with (Z.succ (Zpos (digits2_pos p) - 1)) by lia.
  all: rewrite !Z.pow_succ_r by lia; lia.
Qed.

Lemma digits2_unique (p : positive) (d : Z) :
  2 ^ (d - 1) <= Zpos p < 2 ^ d -> Zpos (digits2_pos p) = d.
Proof.
  intros [Hl Hu]. pose proof (digits2_bounds p) as [Hl' Hu'].
  pose proof (Pos2Z.is_pos (digits2_pos p)) as Hd.
  destruct (Z.lt_trichotomy (Zpos (digits2_pos p)) d) as [H | [H | H]]; [exfalso | exact H | exfalso].
  - assert (2 ^ Zpos (digits2_pos p) <= 2 ^ (d - 1)) by (apply Z.pow_le_mono_r; lia). lia.
  - assert (0 <= d \/ d < 0) as [Hd0 | Hd0] by lia.
    + assert (2 ^ d <= 2 ^ (Zpos (digits2_pos p) - 1)) by (apply Z.pow_le_mono_r; lia). lia.
    + rewrite (Z.pow_neg_r 2 d) in Hu by lia. lia.
Qed.

Lemma iter_xO_pow2 (m d : positive) : Zpos (Pos.iter xO m d) = Zpos m * 2 ^ Zpos d.
Proof.
  induction d as [ | d IH] using Pos.peano_ind.
  - simpl. lia.
  - rewrite Pos.iter_succ, Pos2Z.inj_xO, IH, Pos2Z.inj_succ, Z.pow_succ_r by lia. lia.
Qed.

Lemma digits2_mul_pow2 (m : positive) (k : Z) :
  0 <= k -> Zdigits2 (Zpos m * 2 ^ k) = Zpos (digits2_pos m) + k.
Proof.
  intros Hk. pose proof (digits2_bounds m) as [Hl Hu].
  pose proof (Pos2Z.is_pos (digits2_pos m)) as Hd.
  assert (Hp : 0 < 2 ^ k) by (apply Z.pow_pos_nonneg; lia).
  destruct (Zpos m * 2 ^ k) as [ | q | q ] eqn:E; try lia.
  unfold Zdigits2. apply digits2_unique. rewrite <- E.
  replace (Zpos (digits2_pos m) + k - 1) with ((Zpos (digits2_pos m) - 1) + k) by lia.
  rewrite !Z.pow_add_r by lia. nia.
Qed.

(** *** Shifting a mantissa right *)

Lemma iter_pos_nat {A : Type} (f : A -> A) (p : positive) (x : A) :
  iter_pos f p x = Nat.iter (Pos.to_nat p) f x.
Proof.
  revert x; induction p as [p IH | p IH | ]; intros x; simpl iter_pos.
  - rewrite !IH, Pos2Nat.inj_xI, Nat.iter_succ_r. simpl Nat.mul.
    rewrite Nat.add_0_r, Nat.iter_add. reflexivity.
  - rewrite !IH, Pos2Nat.inj_xO. simpl Nat.mul.
    rewrite Nat.add_0_r, Nat.iter_add. reflexivity.
  - reflexivity.
Qed.

Lemma shr_1_nonneg (m : Z) (r s : bool) :
  0 <= m ->
  shr_1 {| shr_m := m; shr_r := r; shr_s := s |} =
  {| shr_m := m / 2; shr_r := Z.odd m; shr_s := r || s |}.
Proof.
  intros Hm. rewrite <- Z.div2_div.
  destruct m as [ | [p | p | ] | p ]; try reflexivity. lia.
Qed.

(** After [n+1] one-bit shifts of an exact non-negative mantissa [m], the
    record holds the quotient, the last bit shifted out and whether anything
    below it was set. *)
Lemma shr_iter_spec (n : nat) (m : Z) :
  0 <= m ->
  let mrs := Nat.iter (S n) shr_1 {| shr_m := m; shr_r := false; shr_s := false |} in
  0 <= shr_m mrs /\
  exists t, m = shr_m mrs * 2 ^ Z.of_nat (S n) + Z.b2z (shr_r mrs) * 2 ^ Z.of_nat n + t /\
            0 <= t < 2 ^ Z.of_nat n /\ (shr_s mrs = false <-> t = 0).
Proof.
  intros Hm. induction n as [ | n IH].
  - cbv zeta. rewrite Nat.iter_succ. cbn [Nat.iter nat_rect].
    rewrite shr_1_nonneg by exact Hm. cbn [shr_m shr_r shr_s].
    split; [ apply Z.div_pos; lia | ].
    exists 0. change (2 ^ Z.of_nat 1) with 2. change (2 ^ Z.of_nat 0) with 1. pose proof (Z.div2_odd m) as E. rewrite Z.div2_div in E.
    repeat split; try lia.
  - cbv zeta in IH |- *. rewrite Nat.iter_succ.
    destruct (Nat.iter (S n) shr_1 _) as [q r s]. cbn [shr_m shr_r shr_s] in IH.
    destruct IH as [Hq [t [E [Ht Hs]]]].
    rewrite shr_1_nonneg by exact Hq. cbn [shr_m shr_r shr_s].
    split; [ apply Z.div_pos; lia | ].
    exists (Z.b2z r * 2 ^ Z.of_nat n + t).
    pose proof (Z.div2_odd q) as Eq. rewrite Z.div2_div in Eq.
    assert (Hp : 0 < 2 ^ Z.of_nat n) by (apply Z.pow_pos_nonneg; lia).
    rewrite !Nat2Z.inj_succ, !Z.pow_succ_r in * by lia.
    split; [ | split ].
    + rewrite E at 1. rewrite Eq at 1. ring.
    + destruct r; simpl Z.b2z; lia.
    + destruct r; cbn [orb Z.b2z].
      * split; [ discriminate | lia ].
      * rewrite Hs. lia.
Qed.

(** Shifting out only zero bits is exact. *)
Lemma shr_exact (p : positive) (m : Z) (e : Z) :
  0 <= m ->
  shr {| shr_m := m * 2 ^ Zpos p; shr_r := false; shr_s := false |} e (Zpos p) =
  ({| shr_m := m; shr_r := false; shr_s := false |}, e + Zpos p).
Proof.
  intros Hm. unfold shr. f_equal. rewrite iter_pos_nat.
  destruct (Pos2Nat.is_succ p) as [n En]. rewrite En.
  assert (Hp : Zpos p = Z.of_nat (S n)) by lia.
  assert (H2 : 0 < 2 ^ Z.of_nat n) by (apply Z.pow_pos_nonneg; lia).
  assert (Hm' : 0 <= m * 2 ^ Zpos p) by (apply Z.mul_nonneg_nonneg; [ | apply Z.pow_nonneg ]; lia).
  pose proof (shr_iter_spec n _ Hm') as H. cbv zeta in H.
  destruct (Nat.iter (S n) shr_1 _) as [q r s]. cbn [shr_m shr_r shr_s] in H.
  destruct H as [Hq [t [E [Ht Hs]]]].
  rewrite Hp, Nat2Z.inj_succ, Z.pow_succ_r in E by lia.
  assert (Hr : Z.b2z r * 2 ^ Z.of_nat n + t = 0).
  { assert (Hlt : 0 <= Z.b2z r * 2 ^ Z.of_nat n + t < 2 * 2 ^ Z.of_nat n)
      by (destruct r; simpl Z.b2z; lia).
    assert (Hd : Z.b2z r * 2 ^ Z.of_nat n + t = (m - q) * (2 * 2 ^ Z.of_nat n)) by lia.
    destruct (Z.lt_trichotomy (m - q) 0) as [Hc | [Hc | Hc]]; [ | rewrite Hc in Hd; lia | ].
    - assert ((m - q) * (2 * 2 ^ Z.of_nat n) <= (-1) * (2 * 2 ^ Z.of_nat n))
        by (apply Z.mul_le_mono_nonneg_r; lia). lia.
    - assert (1 * (2 * 2 ^ Z.of_nat n) <= (m - q) * (2 * 2 ^ Z.of_nat n))
        by (apply Z.mul_le_mono_nonneg_r; lia). lia. }
  assert (r = false) by (destruct r; simpl Z.b2z in Hr; [ lia | reflexivity ]).
  subst r. simpl Z.b2z in *.
  assert (t = 0) by lia. subst t.
  assert (s = false) by (apply Hs; reflexivity). subst s.
  f_equal. nia.
Qed.

(** *** Rounding a value that needs no rounding *)

Lemma binary_round_aux_canonical (s : bool) (m : positive) (e : Z) :
  canonical_mantissa prec emax m e = true -> e <= emax - prec ->
  binary_round_aux prec emax s (Zpos m) e loc_Exact = S754_finite s m e.
Proof.
  intros Hc He. apply Z.eqb_eq in Hc. apply Z.leb_le in He.
  unfold binary_round_aux, shr_fexp. cbn [Zdigits2 shr_record_of_loc].
  rewrite Hc, Z.sub_diag.
  cbn [shr shr_m loc_of_shr_record round_nearest_even Zdigits2 shr_record_of_loc].
  rewrite Hc, Z.sub_diag. cbn [shr shr_m]. rewrite He. reflexivity.
Qed.

Lemma binary_round_shl (s : bool) (m m' : positive) (e e' : Z) :
  canonical_mantissa prec emax m' e' = true -> e' <= emax - prec ->
  e' <= e -> Zpos m' = Zpos m * 2 ^ (e - e') ->
  binary_round prec emax s m e = S754_finite s m' e'.
Proof.
  intros Hc He Hle Hm. pose proof Hc as Hc'. apply Z.eqb_eq in Hc'.
  assert (Hd : Zpos (digits2_pos m') = Zpos (digits2_pos m) + (e - e')).
  { pose proof (digits2_mul_pow2 m (e - e')) as H. rewrite <- Hm in H. apply H. lia. }
  unfold binary_round.
  replace (Zpos (digits2_pos m) + e) with (Zpos (digits2_pos m') + e') by lia.
  rewrite Hc'. unfold shl_align.
  destruct (e' - e) as [ | d | d ] eqn:Ed; try lia.
  - assert (e = e') by lia. subst e'. rewrite Z.sub_diag, Z.mul_1_r in Hm.
    injection Hm as ->. apply binary_round_aux_canonical; assumption.
  - assert (Pos.iter xO m d = m') as ->.
    { apply Pos2Z.inj. rewrite iter_xO_pow2, Hm. f_equal. f_equal. lia. }
    apply binary_round_aux_canonical; assumption.
Qed.

Lemma binary_round_shr (s : bool) (m m' : positive) (e e' : Z) :
  canonical_mantissa prec emax m' e' = true -> e' <= emax - prec ->
  e < e' -> Zpos m = Zpos m' * 2 ^ (e' - e) ->
  binary_round prec emax s m e = S754_finite s m' e'.
Proof.
  intros Hc He Hlt Hm. pose proof Hc as Hc'. apply Z.eqb_eq in Hc'.
  assert (Hd : Zpos (digits2_pos m) = Zpos (digits2_pos m') + (e' - e)).
  { pose proof (digits2_mul_pow2 m' (e' - e)) as H. rewrite <- Hm in H. apply H. lia. }
  unfold binary_round.
  replace (Zpos (digits2_pos m) + e) with (Zpos (digits2_pos m') + e') by lia.
  rewrite Hc'. unfold shl_align.
  destruct (e' - e) as [ | d | d ] eqn:Ed; try lia.
  unfold binary_round_aux, shr_fexp. cbn [Zdigits2 shr_record_of_loc].
  replace (Zpos (digits2_pos m) + e) with (Zpos (digits2_pos m') + e') by lia.
  rewrite Hc', Ed, Hm, shr_exact by lia.
  cbn [shr_m loc_of_shr_record round_nearest_even Zdigits2 shr_record_of_loc].
  replace (e + Zpos d) with e' by lia.
  rewrite Hc', Z.sub_diag. cbn [shr shr_m].
  apply Z.leb_le in He. rewrite He. reflexivity.
Qed.

(** *** Integers as Numbers *)

Lemma canon_m_spec (p : positive) :
  Zpos p < 2 ^ prec ->
  Zpos (canon_m p) = Zpos p * 2 ^ (prec - Zpos (digits2_pos p)) /\
  0 <= prec - Zpos (digits2_pos p).
Proof.
  intros Hp. pose proof (digits2_bounds p) as [Hl Hu].
  assert (Hd : Zpos (digits2_pos p) <= prec).
  { destruct (Z.le_gt_cases (Zpos (digits2_pos p)) prec) as [H | H]; [ exact H | exfalso ].
    assert (2 ^ prec <= 2 ^ (Zpos (digits2_pos p) - 1)) by (apply Z.pow_le_mono_r; lia). lia. }
  split; [ | lia ]. unfold canon_m. rewrite Z2Pos.id; [ reflexivity | ].
  apply Z.mul_pos_pos; [ lia | apply Z.pow_pos_nonneg; lia ].
Qed.

Lemma canon_canonical (p : positive) :
  Zpos p < 2 ^ prec ->
  canonical_mantissa prec emax (canon_m p) (canon_e p) = true /\ canon_e p <= 0.
Proof.
  intros Hp. destruct (canon_m_spec p Hp) as [Hm Hd].
  pose proof (digits2_mul_pow2 p _ Hd) as H. rewrite <- Hm in H. cbn [Zdigits2] in H.
  pose proof (Pos2Z.is_pos (digits2_pos p)) as Hpos.
  unfold canon_e. split; [ | lia ].
  unfold canonical_mantissa. apply Z.eqb_eq. rewrite H.
  unfold fexp, SpecFloat.emin. change prec with 53 in *. change emax with 1024. lia.
Qed.

(** A non-zero integer [z], given as [z * 2^k] at exponent [-k], normalizes
    to the representation of [z]. *)
Lemma binary_normalize_canonZ (z k : Z) (sz : bool) :
  z <> 0 -> Z.abs z < 2 ^ prec -> 0 <= k ->
  binary_normalize prec emax (z * 2 ^ k) (- k) sz = canonZ z.
Proof.
  intros Hz Hb Hk.
  assert (H2 : 0 < 2 ^ k) by (apply Z.pow_pos_nonneg; lia).
  assert (Hgen : forall (s : bool) (p q : positive),
             Zpos p < 2 ^ prec -> Zpos q = Zpos p * 2 ^ k ->
             binary_round prec emax s q (- k) = S754_finite s (canon_m p) (canon_e p)).
  { intros s p q Hp Hq.
    destruct (canon_m_spec p Hp) as [Hm Hd]. destruct (canon_canonical p Hp) as [Hc He].
    assert (He' : canon_e p <= emax - prec) by (change emax with 1024; change prec with 53; lia).
    unfold canon_e in *.
    destruct (Z.le_gt_cases (Zpos (digits2_pos p) - prec) (- k)) as [Hle | Hgt].
    - apply binary_round_shl; try assumption.
      rewrite Hm, Hq, <- Z.mul_assoc, <- Z.pow_add_r by lia. f_equal. f_equal. lia.
    - apply binary_round_shr; try assumption; try lia.
      rewrite Hm, Hq, <- Z.mul_assoc, <- Z.pow_add_r by lia. f_equal. f_equal. lia. }
  destruct z as [ | p | p ]; [ congruence | | ].
  - destruct (Zpos p * 2 ^ k) as [ | q | q ] eqn:E; try lia.
    cbn [binary_normalize canonZ]. apply Hgen; [ exact Hb | lia ].
  - destruct (Zneg p * 2 ^ k) as [ | q | q ] eqn:E; try lia.
    cbn [binary_normalize canonZ]. apply Hgen; [ exact Hb | lia ].
Qed.

Lemma Prim2SF_Z2F (z : Z) : Z.abs z < 2 ^ prec -> Prim2SF (Z2F z) = canonZ z.
Proof.
  intros Hb. change prec with 53 in Hb.
  assert (Hof : forall n, 0 <= n < 2 ^ 53 -> Prim2SF (of_uint63 (Uint63.of_Z n)) =
                                           binary_normalize prec emax n 0 false).
  { intros n Hn. rewrite of_uint63_spec, Uint63.of_Z_spec, Z.mod_small; [ reflexivity | ].
    change wB with (2 ^ 63). lia. }
  assert (Hnorm : forall n, n <> 0 -> Z.abs n < 2 ^ 53 ->
                            binary_normalize prec emax n 0 false = canonZ n).
  { intros n Hn0 Hn. pose proof (binary_normalize_canonZ n 0 false Hn0 Hn (Z.le_refl 0)) as H.
    rewrite Z.mul_1_r in H. exact H. }
  unfold Z2F. destruct (Z.ltb_spec z 0) as [Hneg | Hpos].
  - rewrite FloatAxioms.opp_spec, Hof, Hnorm by lia. destruct z; try lia. reflexivity.
  - rewrite Hof by lia. destruct (Z.eq_dec z 0) as [-> | Hz]; [ reflexivity | ].
    apply Hnorm; lia.
Qed.

Lemma canonZ_finite (z : Z) :
  z <> 0 ->
  canonZ z = S754_finite (z <? 0) (canon_m (Z.to_pos (Z.abs z))) (canon_e (Z.to_pos (Z.abs z))).
Proof. destruct z; [ congruence | reflexivity | reflexivity ]. Qed.

Lemma shl_align_fst (m : positive) (e e' : Z) :
  e' <= e -> Zpos (fst (shl_align m e e')) = Zpos m * 2 ^ (e - e').
Proof.
  intros Hle. unfold shl_align. destruct (e' - e) as [ | d | d ] eqn:Ed; try lia; cbn [fst].
  - replace (e - e') with 0 by lia. lia.
  - rewrite iter_xO_pow2. f_equal. f_equal. lia.
Qed.

(** The mantissa of an integer, aligned at an exponent [ez] below its own,
    is the integer scaled by [2^-ez]. *)
Lemma canon_aligned (z ez : Z) :
  z <> 0 -> Z.abs z < 2 ^ prec -> ez <= canon_e (Z.to_pos (Z.abs z)) ->
  cond_Zopp (z <? 0)
    (Zpos (fst (shl_align (canon_m (Z.to_pos (Z.abs z))) (canon_e (Z.to_pos (Z.abs z))) ez))) =
  z * 2 ^ (- ez).
Proof.
  intros Hz Hb He. set (p := Z.to_pos (Z.abs z)) in *.
  assert (Hp : Zpos p = Z.abs z) by (unfold p; rewrite Z2Pos.id; lia).
  assert (Hp' : Zpos p < 2 ^ prec) by lia.
  destruct (canon_m_spec p Hp') as [Hm Hd]. destruct (canon_canonical p Hp') as [_ He0].
  rewrite shl_align_fst by exact He. rewrite Hm, <- Z.mul_assoc, <- Z.pow_add_r by (unfold canon_e in *; lia).
  replace (prec - Zpos (digits2_pos p) + (canon_e p - ez)) with (- ez) by (unfold canon_e; lia).
  rewrite Hp. unfold cond_Zopp. destruct (Z.ltb_spec z 0); lia.
Qed.

Lemma SFadd_canonZ (a b : Z) :
  Z.abs a < 2 ^ prec -> Z.abs b < 2 ^ prec -> Z.abs (a + b) < 2 ^ prec ->
  SFadd prec emax (canonZ a) (canonZ b) = canonZ (a + b).
Proof.
  intros Ha Hb Hab.
  destruct (Z.eq_dec a 0) as [-> | Ha0]; [ destruct b; reflexivity | ].
  destruct (Z.eq_dec b 0) as [-> | Hb0]; [ rewrite Z.add_0_r; destruct a; reflexivity | ].
  rewrite (canonZ_finite a Ha0), (canonZ_finite b Hb0). cbn [SFadd].
  set (ea := canon_e (Z.to_pos (Z.abs a))). set (eb := canon_e (Z.to_pos (Z.abs b))).
  assert (Hea : ea <= 0) by (apply canon_canonical; rewrite Z2Pos.id; lia).
  assert (Heb : eb <= 0) by (apply canon_canonical; rewrite Z2Pos.id; lia).
  rewrite !canon_aligned by (try assumption; fold ea eb; lia). fold ea eb.
  rewrite <- Z.mul_add_distr_r.
  destruct (Z.eq_dec (a + b) 0) as [E | E]; [ rewrite E; reflexivity | ].
  pose proof (binary_normalize_canonZ (a + b) (- Z.min ea eb) false E Hab) as H.
  rewrite Z.opp_involutive in H. apply H. lia.
Qed.

Lemma SFsub_canonZ (a b : Z) :
  Z.abs a < 2 ^ prec -> Z.abs b < 2 ^ prec -> Z.abs (a - b) < 2 ^ prec ->
  SFsub prec emax (canonZ a) (canonZ b) = canonZ (a - b).
Proof.
  intros Ha Hb Hab.
  destruct (Z.eq_dec a 0) as [-> | Ha0]; [ destruct b; reflexivity | ].
  destruct (Z.eq_dec b 0) as [-> | Hb0]; [ rewrite Z.sub_0_r; destruct a; reflexivity | ].
  rewrite (canonZ_finite a Ha0), (canonZ_finite b Hb0). cbn [SFsub].
  set (ea := canon_e (Z.to_pos (Z.abs a))). set (eb := canon_e (Z.to_pos (Z.abs b))).
  assert (Hea : ea <= 0) by (apply canon_canonical; rewrite Z2Pos.id; lia).
  assert (Heb : eb <= 0) by (apply canon_canonical; rewrite Z2Pos.id; lia).
  rewrite !canon_aligned by (try assumption; fold ea eb; lia). fold ea eb.
  rewrite <- Z.mul_sub_distr_r.
  destruct (Z.eq_dec (a - b) 0) as [E | E]; [ rewrite E; reflexivity | ].
  pose proof (binary_normalize_canonZ (a - b) (- Z.min ea eb) false E Hab) as H.
  rewrite Z.opp_involutive in H. apply H. lia.
Qed.

(** Number addition and subtraction are exact on integers while the
    operands and the result stay below 2^53. *)
Lemma Z2F_add (a b : Z) :
  Z.abs a < 2 ^ prec -> Z.abs b < 2 ^ prec -> Z.abs (a + b) < 2 ^ prec ->
  (Z2F a + Z2F b)%float = Z2F (a + b).
Proof.
  intros Ha Hb Hab. apply Prim2SF_inj.
  rewrite FloatAxioms.add_spec, !Prim2SF_Z2F by assumption. apply SFadd_canonZ; assumption.
Qed.

Lemma Z2F_sub (a b : Z) :
  Z.abs a < 2 ^ prec -> Z.abs b < 2 ^ prec -> Z.abs (a - b) < 2 ^ prec ->
  (Z2F a - Z2F b)%float = Z2F (a - b).
Proof.
  intros Ha Hb Hab. apply Prim2SF_inj.
  rewrite FloatAxioms.sub_spec, !Prim2SF_Z2F by assumption. apply SFsub_canonZ; assumption.
Qed.

Lemma truncate_Z2F (z : Z) : Z.abs z < 2 ^ prec -> truncate (Z2F z) = z.
Proof.
  intros Hb. unfold truncate. rewrite Prim2SF_Z2F by exact Hb.
  destruct (Z.eq_dec z 0) as [-> | Hz]; [ reflexivity | ].
  rewrite (canonZ_finite z Hz). set (p := Z.to_pos (Z.abs z)).
  assert (Hp : Zpos p = Z.abs z) by (unfold p; rewrite Z2Pos.id; lia).
  assert (Hp' : Zpos p < 2 ^ prec) by lia.
  destruct (canon_m_spec p Hp') as [Hm Hd]. destruct (canon_canonical p Hp') as [_ He0].
  rewrite Z.shiftl_div_pow2 by exact He0. rewrite Hm. unfold canon_e.
  replace (- (Zpos (digits2_pos p) - prec)) with (prec - Zpos (digits2_pos p)) by lia.
  rewrite Z.div_mul by (apply Z.pow_nonzero; lia).
  rewrite Hp. unfold cond_Zopp. destruct (Z.ltb_spec z 0); lia.
Qed.

Lemma wrap32_small (z : Z) : - 2 ^ 31 <= z < 2 ^ 31 -> wrap32 z = z.
Proof.
  intros Hz. unfold wrap32. cbv zeta.
  destruct (Z.le_gt_cases 0 z) as [Hp | Hn].
  - rewrite Z.mod_small by lia. destruct (Z.leb_spec (2 ^ 31) z); lia.
  - replace (z mod 2 ^ 32) with (z + 2 ^ 32).
    + destruct (Z.leb_spec (2 ^ 31) (z + 2 ^ 32)); lia.
    + apply Z.mod_unique with (q := -1); lia.
Qed.

Lemma wrap32_range (z : Z) : - 2 ^ 31 <= wrap32 z < 2 ^ 31.
Proof.
  unfold wrap32. cbv zeta. pose proof (Z.mod_pos_bound z (2 ^ 32)) as H.
  destruct (Z.leb_spec (2 ^ 31) (z mod 2 ^ 32)); lia.
Qed.

Lemma ToInt32_Z2F (z : Z) : Z.abs z < 2 ^ prec -> ToInt32 (Z2F z) = wrap32 z.
Proof. intros Hb. unfold ToInt32. rewrite truncate_Z2F by exact Hb. reflexivity. Qed.

Lemma ToInt32_range (x : float) : - 2 ^ 31 <= ToInt32 x < 2 ^ 31.
Proof. apply wrap32_range. Qed.

(** *** Comparisons *)

Lemma SFcompare_antisym (x y : spec_float) :
  SFcompare y x = option_map CompOpp (SFcompare x y).
Proof.
  destruct x as [sx | sx | | sx mx ex], y as [sy | sy | | sy my ey]; try reflexivity;
    try (destruct sx; reflexivity); try (destruct sy; reflexivity);
    try (destruct sx, sy; reflexivity).
  cbn [SFcompare option_map]. f_equal.
  destruct sx, sy; try reflexivity; rewrite (Z.compare_antisym ex ey);
    destruct (ex ?= ey); cbn [CompOpp]; try reflexivity.
  - rewrite (Pos.compare_cont_antisym mx my Eq). reflexivity.
  - rewrite (Pos.compare_cont_antisym mx my Eq). reflexivity.
Qed.

Lemma SFcompare_refl (x : spec_float) : x <> S754_nan -> SFcompare x x = Some Eq.
Proof.
  destruct x as [s | s | | s m e]; try congruence; intros _; cbn [SFcompare].
  - reflexivity.
  - destruct s; reflexivity.
  - destruct s; rewrite Z.compare_refl, Pos.compare_cont_refl; reflexivity.
Qed.

Lemma SFcompare_Eq (x y : spec_float) :
  SFcompare x y = Some Eq ->
  x = y \/ exists s s', x = S754_zero s /\ y = S754_zero s'.
Proof.
  destruct x as [sx | sx | | sx mx ex], y as [sy | sy | | sy my ey]; cbn [SFcompare];
    try discriminate; try (destruct sx; discriminate); try (destruct sy; discriminate).
  - intros _. right. exists sx, sy. split; reflexivity.
  - destruct sx, sy; try discriminate; intros _; left; reflexivity.
  - intros H. left.
    destruct sx, sy; try discriminate; destruct (ex ?= ey) eqn:Ee; try discriminate;
      apply Z.compare_eq in Ee; subst ey; injection H as H.
    + destruct (Pos.compare_cont Eq mx my) eqn:Em; try discriminate.
      apply Pos.compare_eq in Em. subst my. reflexivity.
    + apply Pos.compare_eq in H. subst my. reflexivity.
Qed.

Lemma eqb_true_eq (x y : float) :
  (x =? y)%float = true -> (forall s, Prim2SF y <> S754_zero s) -> x = y.
Proof.
  rewrite FloatAxioms.eqb_spec. unfold SFeqb. intros H Hy.
  destruct (SFcompare (Prim2SF x) (Prim2SF y)) as [[ | | ] | ] eqn:E; try discriminate.
  apply SFcompare_Eq in E. destruct E as [E | [s [s' [_ E]]]].
  - apply Prim2SF_inj. exact E.
  - exfalso. apply (Hy s'). exact E.
Qed.

Lemma Z2F_inj (a b : Z) :
  Z.abs a < 2 ^ prec -> Z.abs b < 2 ^ prec -> Z2F a = Z2F b -> a = b.
Proof.
  intros Ha Hb E. rewrite <- (truncate_Z2F a Ha), <- (truncate_Z2F b Hb), E. reflexivity.
Qed.

(** Strict equality of two integers read as Numbers. *)
Lemma eqb_Z2F (a b : Z) :
  Z.abs a < 2 ^ prec -> Z.abs b < 2 ^ prec -> (Z2F a =? Z2F b)%float = (a =? b).
Proof.
  intros Ha Hb. rewrite FloatAxioms.eqb_spec. unfold SFeqb.
  destruct (Z.eqb_spec a b) as [-> | Hne].
  - rewrite SFcompare_refl; [ reflexivity | ].
    rewrite Prim2SF_Z2F by exact Hb. destruct b; discriminate.
  - destruct (SFcompare (Prim2SF (Z2F a)) (Prim2SF (Z2F b))) as [[ | | ] | ] eqn:E; try reflexivity.
    exfalso. apply Hne. apply SFcompare_Eq in E. destruct E as [E | [s [s' [E1 E2]]]].
    + apply Prim2SF_inj in E. apply Z2F_inj; assumption.
    + rewrite Prim2SF_Z2F in E1, E2 by assumption.
      destruct a; try discriminate. destruct b; try discriminate. reflexivity.
Qed.

Lemma is_nan_false (x : float) : is_nan x = false <-> Prim2SF x <> S754_nan.
Proof.
  unfold is_nan. rewrite FloatAxioms.eqb_spec. unfold SFeqb. split.
  - intros H E. rewrite E in H. discriminate H.
  - intros H. rewrite SFcompare_refl by exact H. reflexivity.
Qed.

(** [x < y] fails on comparable Numbers only when [y <= x]. *)
Lemma ltb_false_leb (x y : float) :
  (x <? y)%float = false -> is_nan x = false -> is_nan y = false -> (y <=? x)%float = true.
Proof.
  rewrite FloatAxioms.ltb_spec, FloatAxioms.leb_spec, !is_nan_false.
  unfold SFltb, SFleb. rewrite (SFcompare_antisym (Prim2SF x) (Prim2SF y)).
  intros H Hx Hy.
  destruct (SFcompare (Prim2SF x) (Prim2SF y)) as [[ | | ] | ] eqn:E;
    try reflexivity; try discriminate.
  exfalso. destruct (Prim2SF x), (Prim2SF y); try congruence; discriminate E.
Qed.

Lemma leb_true_ltb (x y : float) : (y <=? x)%float = true -> (x <? y)%float = false.
Proof.
  rewrite FloatAxioms.ltb_spec, FloatAxioms.leb_spec.
  unfold SFltb, SFleb. rewrite (SFcompare_antisym (Prim2SF x) (Prim2SF y)).
  destruct (SFcompare (Prim2SF x) (Prim2SF y)) as [[ | | ] | ]; cbn; congruence.
Qed.

Lemma ltb_true_not_nan (x y : float) :
  (x <? y)%float = true -> is_nan x = false /\ is_nan y = false.
Proof.
  rewrite FloatAxioms.ltb_spec, !is_nan_false. unfold SFltb. intros H.
  split; intros E; rewrite E in H; [ | destruct (Prim2SF x) ]; discriminate H.
Qed.

(** *** The magnitude of a difference *)

Lemma SFabs_binary_round_aux (s : bool) (m e : Z) (l : location) :
  SFabs (binary_round_aux prec emax s m e l) = SFabs (binary_round_aux prec emax false m e l).
Proof.
  unfold binary_round_aux.
  destruct (shr_fexp prec emax m e l) as [mrs e1].
  destruct (shr_fexp prec emax _ e1 loc_Exact) as [mrs' e2].
  destruct (shr_m mrs'); try reflexivity.
  destruct (e2 <=? emax - prec); reflexivity.
Qed.

Lemma SFabs_binary_normalize_opp (m e : Z) (sz : bool) :
  SFabs (binary_normalize prec emax (- m) e sz) = SFabs (binary_normalize prec emax m e sz).
Proof.
  destruct m as [ | p | p ]; cbn [Z.opp binary_normalize]; try reflexivity;
    unfold binary_round; destruct (shl_align p e _) as [mz ez].
  - apply SFabs_binary_round_aux.
  - symmetry. apply SFabs_binary_round_aux.
Qed.

Lemma SFabs_SFsub_comm (x y : spec_float) :
  SFabs (SFsub prec emax x y) = SFabs (SFsub prec emax y x).
Proof.
  destruct x as [sx | sx | | sx mx ex], y as [sy | sy | | sy my ey]; try reflexivity;
    try (destruct sx, sy; reflexivity).
  cbn [SFsub]. rewrite (Z.min_comm ey ex).
  match goal with
  | |- SFabs (binary_normalize _ _ (?a - ?b) _ _) = _ =>
      replace (a - b) with (- (b - a)) by lia
  end.
  apply SFabs_binary_normalize_opp.
Qed.

Lemma abs_sub_comm (x y : float) : abs (x - y) = abs (y - x).
Proof.
  apply Prim2SF_inj. rewrite !FloatAxioms.abs_spec, !FloatAxioms.sub_spec.
  apply SFabs_SFsub_comm.
Qed.

End NumberFacts.

(** ** Facts about 32-bit words *)
Module BitFacts.
Import Number Spec NumberFacts.

Lemma lor_lt_pow2 (x y n : Z) :
  0 <= x < 2 ^ n -> 0 <= y < 2 ^ n -> 0 <= Z.lor x y < 2 ^ n.
Proof.
  intros Hx Hy. split; [ apply Z.lor_nonneg; lia | ].
  destruct (Z.eq_dec x 0) as [-> | Hx0]; [ rewrite Z.lor_0_l; lia | ].
  destruct (Z.eq_dec y 0) as [-> | Hy0]; [ rewrite Z.lor_0_r; lia | ].
  assert (Hl : 0 < Z.lor x y).
  { assert (0 <= Z.lor x y) by (apply Z.lor_nonneg; lia).
    destruct (Z.eq_dec (Z.lor x y) 0) as [E | E]; [ | lia ].
    apply Z.lor_eq_0_iff in E. lia. }
  apply Z.log2_lt_pow2; [ exact Hl | ].
  rewrite Z.log2_lor by lia.
  apply Z.max_lub_lt; apply Z.log2_lt_pow2; lia.
Qed.

Lemma land_int32 (a b : Z) :
  - 2 ^ 31 <= a < 2 ^ 31 -> - 2 ^ 31 <= b < 2 ^ 31 -> - 2 ^ 31 <= Z.land a b < 2 ^ 31.
Proof.
  intros Ha Hb.
  assert (Hnn : forall x y, 0 <= x -> 0 <= Z.land x y <= x).
  { intros x y Hx. split; [ apply Z.land_nonneg; lia | ].
    pose proof (Z.sub_land_same_l x y) as E.
    assert (0 <= Z.land x (Z.lnot y)) by (apply Z.land_nonneg; lia). lia. }
  destruct (Z.le_gt_cases 0 a) as [H0a | Hna]; [ pose proof (Hnn a b H0a); lia | ].
  destruct (Z.le_gt_cases 0 b) as [H0b | Hnb];
    [ rewrite Z.land_comm; pose proof (Hnn b a H0b); lia | ].
  pose proof (Z.lnot_land a b) as E.
  pose proof (lor_lt_pow2 (Z.lnot a) (Z.lnot b) 31) as H.
  unfold Z.lnot in *. lia.
Qed.

Lemma lor_int32 (a b : Z) :
  - 2 ^ 31 <= a < 2 ^ 31 -> - 2 ^ 31 <= b < 2 ^ 31 -> - 2 ^ 31 <= Z.lor a b < 2 ^ 31.
Proof.
  intros Ha Hb.
  pose proof (land_int32 (Z.lnot a) (Z.lnot b)) as H.
  pose proof (Z.lnot_lor a b) as E. unfold Z.lnot in *. lia.
Qed.

(** [u & (u - 1)] clears the lowest set bit: it is zero exactly on the powers of two. *)
Lemma land_pred_pow2 (u : Z) :
  0 < u -> (Z.land u (u - 1) = 0 <-> exists i, 0 <= i /\ u = 2 ^ i).
Proof.
  intros Hu. split.
  - intros H. exists (Z.log2 u). split; [ apply Z.log2_nonneg | ].
    destruct (Z.log2_spec u Hu) as [Hl Hh].
    destruct (Z.eq_dec u (2 ^ Z.log2 u)) as [E | E]; [ exact E | exfalso ].
    assert (Hk : Z.log2 (u - 1) = Z.log2 u).
    { apply Z.log2_unique; [ apply Z.log2_nonneg | ]. rewrite Z.pow_succ_r in * by apply Z.log2_nonneg. lia. }
    assert (Hb : Z.testbit (Z.land u (u - 1)) (Z.log2 u) = true).
    { rewrite Z.land_spec, Z.bit_log2 by exact Hu. rewrite <- Hk. rewrite Z.bit_log2; [ reflexivity | ].
      assert (0 < 2 ^ Z.log2 u) by (apply Z.pow_pos_nonneg; [ lia | apply Z.log2_nonneg ]). lia. }
    rewrite H, Z.bits_0 in Hb. discriminate Hb.
  - intros [i [Hi ->]]. replace (2 ^ i - 1) with (Z.ones i) by (rewrite Z.ones_equiv; lia).
    rewrite Z.land_ones by exact Hi. apply Z.mod_same. apply Z.pow_nonzero; lia.
Qed.

Lemma wrap32_unique (z k : Z) :
  - 2 ^ 31 <= z + k * 2 ^ 32 < 2 ^ 31 -> wrap32 z = z + k * 2 ^ 32.
Proof.
  intros H. rewrite <- (wrap32_small _ H). unfold wrap32.
  rewrite Z.mod_add by lia. reflexivity.
Qed.

Lemma filter_none (l : list bool) :
  length (filter (fun b : bool => b) l) = 0%nat -> forall j, nth j l false = false.
Proof.
  induction l as [ | b l IH]; intros H j.
  - destruct j; reflexivity.
  - destruct b; cbn [filter length] in H; [ discriminate | ].
    destruct j; [ reflexivity | apply IH; exact H ].
Qed.

Lemma filter_one (l : list bool) :
  length (filter (fun b : bool => b) l) = 1%nat ->
  exists i, (i < length l)%nat /\ forall j, nth j l false = (j =? i)%nat.
Proof.
  induction l as [ | b l IH]; intros H; [ discriminate | ].
  destruct b; cbn [filter length] in H.
  - exists 0%nat. split; [ cbn; lia | ].
    intros [ | j]; [ reflexivity | ]. cbn [nth Nat.eqb]. apply filter_none. lia.
  - destruct (IH H) as [i [Hi Hn]]. exists (S i). split; [ cbn; lia | ].
    intros [ | j]; [ reflexivity | ]. cbn [nth Nat.eqb]. apply Hn.
Qed.

Lemma nth_bits32 (v : Z) (j : nat) :
  (j < 32)%nat -> nth j (bits32 v) false = Z.testbit v (Z.of_nat j).
Proof.
  intros Hj. unfold bits32.
  rewrite (nth_indep _ false (Z.testbit v (Z.of_nat 0))) by (rewrite length_map, length_seq; exact Hj).
  rewrite (map_nth (fun i => Z.testbit v (Z.of_nat i)) (seq 0 32) 0%nat j).
  rewrite seq_nth by exact Hj. reflexivity.
Qed.

Lemma bits32_mod (v : Z) : bits32 (v mod 2 ^ 32) = bits32 v.
Proof.
  unfold bits32. apply map_ext_in. intros i Hi. apply in_seq in Hi.
  apply Z.mod_pow2_bits_low. lia.
Qed.

Lemma popcount32_pow2 (i : Z) : 0 <= i < 32 -> popcount32 (2 ^ i) = 1%nat.
Proof.
  intros Hi.
  assert (H : forallb (fun n => (popcount32 (2 ^ Z.of_nat n) =? 1)%nat) (seq 0 32) = true)
    by (vm_compute; reflexivity).
  rewrite forallb_forall in H. specialize (H (Z.to_nat i)).
  rewrite Z2Nat.id in H by lia. apply Nat.eqb_eq. apply H. apply in_seq. lia.
Qed.

Lemma popcount32_ext (v w : Z) : bits32 v = bits32 w -> popcount32 v = popcount32 w.
Proof. intros H. unfold popcount32. rewrite H. reflexivity. Qed.

Lemma length_bits32 (v : Z) : length (bits32 v) = 32%nat.
Proof. unfold bits32. rewrite length_map, length_seq. reflexivity. Qed.

Lemma popcount32_unfold (v : Z) :
  popcount32 v = length (filter (fun b : bool => b) (bits32 v)).
Proof. reflexivity. Qed.

Lemma popcount32_one_bit (v : Z) :
  popcount32 v = 1%nat ->
  exists i, (i < 32)%nat /\ forall j, nth j (bits32 v) false = (j =? i)%nat.
Proof.
  intros H. rewrite popcount32_unfold in H.
  destruct (filter_one (bits32 v) H) as [i [Hi Hn]].
  rewrite length_bits32 in Hi. exists i. split; assumption.
Qed.

(** Exactly one set bit in the 32-bit word of [v]: the word is a power of two. *)
Lemma popcount32_one (v : Z) :
  popcount32 v = 1%nat <-> exists i, 0 <= i < 32 /\ v mod 2 ^ 32 = 2 ^ i.
Proof.
  split.
  - intros H. destruct (popcount32_one_bit v H) as [i [Hi Hn]]. clear H.
    exists (Z.of_nat i). split; [ lia | ].
    apply Z.bits_inj'. intros n Hn0. rewrite Z.pow2_bits_eqb by lia.
    destruct (Z.lt_ge_cases n 32) as [Hlt | Hge].
    + rewrite Z.mod_pow2_bits_low by lia.
      assert (En : Z.testbit v n = nth (Z.to_nat n) (bits32 v) false).
      { rewrite nth_bits32 by lia. rewrite Z2Nat.id by exact Hn0. reflexivity. }
      rewrite En, Hn. clear En Hn.
      destruct (Nat.eqb_spec (Z.to_nat n) i), (Z.eqb_spec (Z.of_nat i) n); try reflexivity; lia.
    + clear Hn. rewrite Z.mod_pow2_bits_high by lia. symmetry. apply Z.eqb_neq. lia.
  - intros [i [Hi E]].
    assert (Hb : bits32 v = bits32 (2 ^ i)) by (rewrite <- (bits32_mod v), E; reflexivity).
    rewrite (popcount32_ext v (2 ^ i) Hb). apply popcount32_pow2. exact Hi.
Qed.

Lemma pow2_between (x i : Z) : 2 ^ 31 < x < 2 ^ 32 -> x <> 2 ^ i.
Proof.
  intros Hx E. subst x.
  destruct (Z.lt_ge_cases i 0) as [Hn | Hp]; [ rewrite (Z.pow_neg_r 2 i) in Hx by exact Hn; lia | ].
  destruct Hx as [Hl Hu].
  apply Z.pow_lt_mono_r_iff in Hl; try lia. apply Z.pow_lt_mono_r_iff in Hu; lia.
Qed.

(** The test of [isPowerOfTwo] on 32-bit words. *)
Lemma land_wrap32_pred (v : Z) :
  - 2 ^ 31 <= v < 2 ^ 32 ->
  (Z.land (wrap32 v) (wrap32 (v - 1)) = 0 <->
   v = 0 \/ exists i, 0 <= i < 32 /\ v mod 2 ^ 32 = 2 ^ i).
Proof.
  intros Hv.
  assert (Hneg : forall a b, a < 0 -> b < 0 -> Z.land a b <> 0).
  { intros a b Ha Hb. assert (Z.land a b < 0) by (apply Z.land_neg; lia). lia. }
  destruct (Z.eq_dec v 0) as [-> | Hv0]; [ split; [ left; reflexivity | reflexivity ] | ].
  destruct (Z.eq_dec v (- 2 ^ 31)) as [-> | Hvm].
  { split; [ intros _; right; exists 31; split; [ lia | reflexivity ] | reflexivity ]. }
  destruct (Z.eq_dec v (2 ^ 31)) as [-> | Hvp].
  { split; [ intros _; right; exists 31; split; [ lia | reflexivity ] | reflexivity ]. }
  destruct (Z.lt_ge_cases v 0) as [Hn | Hp]; [ | destruct (Z.lt_ge_cases v (2 ^ 31)) as [Hs | Hb] ].
  - rewrite !wrap32_small by lia. split; [ intros H; exfalso; apply (Hneg v (v - 1)); lia | ].
    intros [H | [i [Hi E]]]; [ lia | exfalso ].
    assert (Hm : v mod 2 ^ 32 = v + 2 ^ 32) by (symmetry; apply Z.mod_unique with (q := -1); lia).
    apply (pow2_between (v + 2 ^ 32) i); lia.
  - rewrite !wrap32_small by lia. rewrite land_pred_pow2 by lia.
    rewrite Z.mod_small by lia. split.
    + intros [i [Hi E]]. right. exists i. split; [ | exact E ]. split; [ lia | ].
      apply (Z.pow_lt_mono_r_iff 2); lia.
    + intros [H | [i [Hi E]]]; [ lia | ]. exists i. split; [ lia | exact E ].
  - rewrite (wrap32_unique v (-1)), (wrap32_unique (v - 1) (-1)) by lia.
    split; [ intros H; exfalso; apply (Hneg (v + -1 * 2 ^ 32) (v - 1 + -1 * 2 ^ 32)); lia | ].
    intros [H | [i [Hi E]]]; [ lia | exfalso ].
    rewrite Z.mod_small in E by lia. apply (pow2_between v i); lia.
Qed.

(** *** Bit smearing *)

Lemma lor_shr_bits (a k j : Z) :
  0 <= j -> Z.testbit (lor_shr a k) j = Z.testbit a j || Z.testbit a (j + k).
Proof. intros Hj. unfold lor_shr. rewrite Z.lor_spec, Z.shiftr_spec by exact Hj. reflexivity. Qed.

Lemma run_lor_shr (L w k a : Z) :
  0 <= k <= w -> run L w a -> run L (w + k) (lor_shr a k).
Proof.
  intros Hk Hr j Hj0 Hj. rewrite lor_shr_bits by exact Hj0.
  destruct (Z.lt_ge_cases (L - w) j) as [Hin | Hout].
  - rewrite (Hr j) by lia. reflexivity.
  - rewrite (Hr (j + k)) by lia. apply orb_true_r.
Qed.

Lemma above_lor_shr (L k a : Z) (b : bool) :
  0 <= k -> 0 <= L ->
  (forall j, L < j -> Z.testbit a j = b) ->
  forall j, L < j -> Z.testbit (lor_shr a k) j = b.
Proof.
  intros Hk HL Ha j Hj. rewrite lor_shr_bits by lia.
  rewrite (Ha j), (Ha (j + k)) by lia. destruct b; reflexivity.
Qed.

Lemma run_smear (L a : Z) : run L 1 a -> run L 32 (smear a).
Proof.
  intros H. unfold smear.
  apply (run_lor_shr L 16 16); [ lia | ].
  apply (run_lor_shr L 8 8); [ lia | ].
  apply (run_lor_shr L 4 4); [ lia | ].
  apply (run_lor_shr L 2 2); [ lia | ].
  apply (run_lor_shr L 1 1); [ lia | ]. exact H.
Qed.

Lemma above_smear (L a : Z) (b : bool) :
  0 <= L -> (forall j, L < j -> Z.testbit a j = b) ->
  forall j, L < j -> Z.testbit (smear a) j = b.
Proof.
  intros HL H. unfold smear.
  repeat (apply above_lor_shr; [ lia | exact HL | ]). exact H.
Qed.

(** Smearing a positive 31-bit integer sets every bit below its highest one. *)
Lemma smear_pos (a : Z) : 0 < a < 2 ^ 31 -> smear a = 2 ^ Z.succ (Z.log2 a) - 1.
Proof.
  intros Ha. pose proof (Z.log2_nonneg a) as HL0.
  assert (HL : Z.log2 a < 31) by (apply Z.log2_lt_pow2; lia).
  assert (Hrun : run (Z.log2 a) 32 (smear a)).
  { apply run_smear. intros j Hj0 Hj. replace j with (Z.log2 a) by lia. apply Z.bit_log2. lia. }
  assert (Habove : forall j, Z.log2 a < j -> Z.testbit (smear a) j = false).
  { apply above_smear; [ exact HL0 | ]. intros j Hj. apply Z.bits_above_log2; lia. }
  replace (2 ^ Z.succ (Z.log2 a) - 1) with (Z.ones (Z.succ (Z.log2 a)))
    by (rewrite Z.ones_equiv; lia).
  apply Z.bits_inj'. intros j Hj.
  destruct (Z.lt_ge_cases (Z.log2 a) j) as [Hhi | Hlo].
  - rewrite Habove by exact Hhi. rewrite Z.ones_spec_high by lia. reflexivity.
  - rewrite Hrun by lia. rewrite Z.ones_spec_low by lia. reflexivity.
Qed.

(** Smearing a negative 32-bit integer gives -1. *)
Lemma smear_neg (a : Z) : - 2 ^ 31 <= a < 0 -> smear a = -1.
Proof.
  intros Ha.
  assert (Hhi : forall j, 30 < j -> Z.testbit a j = true).
  { intros j Hj. apply Z.bits_above_log2_neg; [ lia | ].
    destruct (Z.eq_dec a (-1)) as [-> | Hne]; [ simpl; lia | ].
    apply Z.log2_lt_pow2; [ lia | ].
    assert (2 ^ 31 <= 2 ^ j) by (apply Z.pow_le_mono_r; lia). lia. }
  assert (Hrun : run 31 32 (smear a)).
  { apply run_smear. intros j Hj0 Hj. apply Hhi. lia. }
  apply Z.bits_inj'. intros j Hj. rewrite Z.bits_m1 by exact Hj.
  destruct (Z.lt_ge_cases 31 j) as [H | H].
  - apply (above_smear 30 a true); [ lia | exact Hhi | lia ].
  - apply Hrun; lia.
Qed.

Lemma smear_0 : smear 0 = 0.
Proof. reflexivity. Qed.

Lemma shiftr_int32 (a k : Z) :
  0 <= k -> - 2 ^ 31 <= a < 2 ^ 31 -> - 2 ^ 31 <= Z.shiftr a k < 2 ^ 31.
Proof.
  intros Hk Ha. rewrite Z.shiftr_div_pow2 by exact Hk.
  assert (Hp : 0 < 2 ^ k) by (apply Z.pow_pos_nonneg; lia).
  split.
  - apply Z.div_le_lower_bound; [ exact Hp | ]. nia.
  - apply Z.div_lt_upper_bound; [ exact Hp | ]. nia.
Qed.

End BitFacts.

(** ** The helpers on integers *)
Module IntFacts.
Import Number Spec NumberFacts BitFacts math.

Lemma int32_safe (z : Z) : - 2 ^ 31 <= z < 2 ^ 31 -> Z.abs z < 2 ^ prec.
Proof. change prec with 53. lia. Qed.

Lemma ToInt32_int32 (z : Z) : - 2 ^ 31 <= z < 2 ^ 31 -> ToInt32 (Z2F z) = z.
Proof.
  intros Hz. rewrite ToInt32_Z2F by (apply int32_safe; exact Hz). apply wrap32_small. exact Hz.
Qed.

(** [~~x] is the Number of ToInt32(x). *)
Lemma double_bitnot (x : float) : bitnot (bitnot x) = Z2F (ToInt32 x).
Proof.
  unfold bitnot. pose proof (ToInt32_range x) as Hx.
  rewrite ToInt32_int32 by (unfold Z.lnot; lia).
  rewrite Z.lnot_involutive. reflexivity.
Qed.

Lemma wrap32_periodic (z k : Z) : wrap32 (z + k * 2 ^ 32) = wrap32 z.
Proof. unfold wrap32. rewrite Z.mod_add by lia. reflexivity. Qed.

Lemma isPowerOfTwo_Z2F (v : Z) :
  Z.abs v < 2 ^ 52 ->
  isPowerOfTwo (Z2F v) = (Z.land (wrap32 v) (wrap32 (v - 1)) =? 0).
Proof.
  intros Hv. unfold isPowerOfTwo, bitand.
  change 1%float with (Z2F 1). change 0%float with (Z2F 0).
  rewrite Z2F_sub by (change prec with 53; lia).
  rewrite !ToInt32_Z2F by (change prec with 53; lia).
  apply eqb_Z2F; [ | change prec with 53; lia ].
  apply int32_safe. apply land_int32; apply wrap32_range.
Qed.
Lemma wrap32_mod (v : Z) : wrap32 (v mod 2 ^ 32) = wrap32 v.
Proof. unfold wrap32. rewrite Z.mod_mod by lia. reflexivity. Qed.

Lemma isPowerOfFour_Z2F (v : Z) :
  Z.abs v < 2 ^ 52 ->
  isPowerOfFour (Z2F v) =
  if (v =? 0) || (v =? 2) || (v =? 3) then false
  else if v =? 1 then true
  else (Z.land (wrap32 v) (wrap32 (v - 1)) =? 0) &&
       (Z.land (wrap32 v) (-1431655766) =? 0).
Proof.
  intros Hv. unfold isPowerOfFour.
  fold (isPowerOfTwo (Z2F v)). rewrite isPowerOfTwo_Z2F by exact Hv.
  change 0%float with (Z2F 0). change 1%float with (Z2F 1).
  change 2%float with (Z2F 2). change 3%float with (Z2F 3).
  change 0xaaaaaaaa%float with (Z2F 2863311530).
  rewrite !eqb_Z2F by (change prec with 53; lia).
  unfold bitand. rewrite !ToInt32_Z2F by (change prec with 53; lia).
  change (wrap32 2863311530) with (-1431655766).
  rewrite eqb_Z2F; [ | | change prec with 53; lia ].
  - destruct ((v =? 0) || (v =? 2) || (v =? 3)); [ reflexivity | ].
    destruct (v =? 1); [ reflexivity | ].
    destruct (Z.land (wrap32 v) (wrap32 (v - 1)) =? 0);
      destruct (Z.land (wrap32 v) (-1431655766) =? 0); reflexivity.
  - apply int32_safe. apply land_int32; [ apply wrap32_range | lia ].
Qed.

(** The odd-bit mask lets a one-bit word through only when the bit is at an
    even position below 31. *)
Lemma mask_even (i : Z) :
  0 <= i < 32 -> Z.land (wrap32 (2 ^ i)) (-1431655766) = 0 -> i < 31 /\ Z.even i = true.
Proof.
  intros Hi H.
  assert (Hall : forallb (fun n => let i := Z.of_nat n in
                   implb (Z.land (wrap32 (2 ^ i)) (-1431655766) =? 0)
                         ((i <? 31) && Z.even i)) (seq 0 32) = true)
    by (vm_compute; reflexivity).
  rewrite forallb_forall in Hall. specialize (Hall (Z.to_nat i)).
  cbv zeta in Hall. rewrite Z2Nat.id in Hall by lia.
  assert (Hin : In (Z.to_nat i) (seq 0 32)) by (apply in_seq; lia).
  apply Hall in Hin. apply Z.eqb_eq in H. rewrite H in Hin. cbn [implb] in Hin.
  apply andb_prop in Hin. destruct Hin as [H1 H2]. apply Z.ltb_lt in H1. split; assumption.
Qed.

Lemma lor_shr_int32 (a k : Z) :
  0 <= k -> - 2 ^ 31 <= a < 2 ^ 31 -> - 2 ^ 31 <= lor_shr a k < 2 ^ 31.
Proof.
  intros Hk Ha. unfold lor_shr. apply lor_int32; [ exact Ha | apply shiftr_int32; assumption ].
Qed.

Lemma smear_int32 (a : Z) : - 2 ^ 31 <= a < 2 ^ 31 -> - 2 ^ 31 <= smear a < 2 ^ 31.
Proof.
  intros Ha. unfold smear. repeat (apply lor_shr_int32; [ lia | ]). exact Ha.
Qed.

(** [val | (val >> k)] on the Number of an integer. *)
Lemma bitor_sar_Z2F (u k : Z) :
  Z.abs u < 2 ^ prec -> 0 <= k < 32 ->
  bitor (Z2F u) (sar (Z2F u) k) = Z2F (lor_shr (wrap32 u) k).
Proof.
  intros Hu Hk. unfold bitor, sar, lor_shr.
  rewrite ToInt32_Z2F by exact Hu. rewrite Z.mod_small by exact Hk.
  rewrite ToInt32_int32; [ reflexivity | ].
  apply shiftr_int32; [ lia | apply wrap32_range ].
Qed.

(** [nextPowerOfTwo] on the Number of an integer: the smearing of the
    32-bit word of [v - 1], plus one. *)
Lemma nextPowerOfTwo_Z2F (v : Z) :
  Z.abs v < 2 ^ 52 ->
  nextPowerOfTwo (Z2F v) = Z2F (smear (wrap32 (v - 1)) + 1).
Proof.
  intros Hv. unfold nextPowerOfTwo. cbv zeta.
  change 1%float with (Z2F 1).
  rewrite Z2F_sub by (change prec with 53; lia).
  pose proof (wrap32_range (v - 1)) as H0.
  pose proof (lor_shr_int32 _ 1 ltac:(lia) H0) as H1.
  pose proof (lor_shr_int32 _ 2 ltac:(lia) H1) as H2.
  pose proof (lor_shr_int32 _ 4 ltac:(lia) H2) as H3.
  pose proof (lor_shr_int32 _ 8 ltac:(lia) H3) as H4.
  pose proof (lor_shr_int32 _ 16 ltac:(lia) H4) as H5.
  rewrite (bitor_sar_Z2F (v - 1) 1) by (change prec with 53; lia).
  rewrite (bitor_sar_Z2F _ 2), (wrap32_small _ H1) by (try apply int32_safe; try assumption; lia).
  rewrite (bitor_sar_Z2F _ 4), (wrap32_small _ H2) by (try apply int32_safe; try assumption; lia).
  rewrite (bitor_sar_Z2F _ 8), (wrap32_small _ H3) by (try apply int32_safe; try assumption; lia).
  rewrite (bitor_sar_Z2F _ 16), (wrap32_small _ H4) by (try apply int32_safe; try assumption; lia).
  fold (smear (wrap32 (v - 1))).
  apply Z2F_add; change prec with 53; fold (smear (wrap32 (v - 1))) in H5; lia.
Qed.

(** The value of [nextPowerOfTwo] on 1 .. 2^31. *)
Lemma nextPowerOfTwo_log2_up (v : Z) :
  1 <= v <= 2 ^ 31 -> nextPowerOfTwo (Z2F v) = Z2F (2 ^ Z.log2_up v).
Proof.
  intros Hv. rewrite nextPowerOfTwo_Z2F by lia. f_equal.
  rewrite wrap32_small by lia.
  destruct (Z.eq_dec v 1) as [-> | Hv1]; [ reflexivity | ].
  rewrite smear_pos by lia. rewrite Z.log2_up_eqn by lia.
  replace (Z.pred v) with (v - 1) by lia. lia.
Qed.

End IntFacts.

(** ** Truncation, [~~] and [Math.floor] *)
Module TruncFacts.
Import Number Spec NumberFacts BitFacts IntFacts.

(** *** Magnitudes of finite Numbers *)

Lemma valid_finite_bounds (s : bool) (m : positive) (e : Z) :
  valid_binary (S754_finite s m e) = true -> Zpos m < 2 ^ 53 /\ -1074 <= e.
Proof.
  cbn [SpecFloat.valid_binary]. unfold bounded, canonical_mantissa, fexp, SpecFloat.emin.
  change prec with 53. change emax with 1024.
  intros H. apply andb_prop in H. destruct H as [Hc _]. apply Z.eqb_eq in Hc.
  pose proof (digits2_bounds m) as [_ Hu].
  pose proof (Pos2Z.is_pos (digits2_pos m)) as Hd.
  assert (Hd53 : Zpos (digits2_pos m) <= 53) by lia.
  split; [ | lia ].
  assert (2 ^ Zpos (digits2_pos m) <= 2 ^ 53) by (apply Z.pow_le_mono_r; lia). lia.
Qed.

Lemma shiftl_neg_exp (m : positive) (e : Z) :
  e < 0 -> Z.shiftl (Zpos m) e = Zpos m / 2 ^ (- e) /\ 0 <= Zpos m / 2 ^ (- e).
Proof.
  intros He. rewrite Z.shiftl_div_pow2 by lia. split; [ reflexivity | ].
  apply Z.div_pos; [ lia | apply Z.pow_pos_nonneg; lia ].
Qed.

(** A mantissa below 2^53 at an exponent below -21 (or below 2^52 at -21)
    is a value below 2^31. *)
Lemma shiftl_lt_pow31 (m : positive) (e : Z) :
  Zpos m < 2 ^ 53 -> e < -21 \/ (e = -21 /\ Zpos m < 2 ^ 52) ->
  0 <= Z.shiftl (Zpos m) e < 2 ^ 31.
Proof.
  intros Hm He. destruct (shiftl_neg_exp m e ltac:(lia)) as [-> H0]. split; [ exact H0 | ].
  apply Z.div_lt_upper_bound; [ apply Z.pow_pos_nonneg; lia | ].
  destruct He as [He | [-> Hm']]; [ | change (2 ^ (- (-21))) with (2 ^ 21); lia ].
  assert (2 ^ 22 <= 2 ^ (- e)) by (apply Z.pow_le_mono_r; lia). nia.
Qed.

Lemma shiftl_le_pow31 (m : positive) (e : Z) :
  Zpos m < 2 ^ 53 -> e < -21 \/ (e = -21 /\ Zpos m <= 2 ^ 52) ->
  0 <= Z.shiftl (Zpos m) e <= 2 ^ 31.
Proof.
  intros Hm He. destruct (shiftl_neg_exp m e ltac:(lia)) as [-> H0]. split; [ exact H0 | ].
  assert (Hlt : Zpos m / 2 ^ (- e) < 2 ^ 31 + 1); [ | lia ].
  apply Z.div_lt_upper_bound; [ apply Z.pow_pos_nonneg; lia | ].
  destruct He as [He | [-> Hm']]; [ | change (2 ^ (- (-21))) with (2 ^ 21); lia ].
  assert (2 ^ 22 <= 2 ^ (- e)) by (apply Z.pow_le_mono_r; lia). nia.
Qed.

Lemma Prim2SF_pow31 : Prim2SF 0x1p31 = S754_finite false 4503599627370496 (-21).
Proof. reflexivity. Qed.

Lemma Prim2SF_neg_pow31 : Prim2SF (-0x1p31) = S754_finite true 4503599627370496 (-21).
Proof. reflexivity. Qed.

Lemma SFltb_pow31 (m : positive) (e : Z) :
  SFltb (S754_finite false m e) (S754_finite false 4503599627370496 (-21)) = true ->
  e < -21 \/ (e = -21 /\ Zpos m < 2 ^ 52).
Proof.
  change (2 ^ 52) with (Zpos 4503599627370496).
  generalize 4503599627370496%positive. intros C.
  unfold SFltb. cbn [SFcompare].
  destruct (e ?= -21) eqn:Ec; try discriminate.
  - apply Z.compare_eq in Ec. subst e.
    destruct (Pos.compare_cont Eq m C) eqn:Em; try discriminate.
    intros _. right. split; [ reflexivity | ].
    apply Pos2Z.pos_lt_pos. apply Pos.compare_lt_iff. exact Em.
  - intros _. left. apply Z.compare_lt_iff in Ec. exact Ec.
Qed.

Lemma SFleb_neg_pow31 (m : positive) (e : Z) :
  SFleb (S754_finite true 4503599627370496 (-21)) (S754_finite true m e) = true ->
  e < -21 \/ (e = -21 /\ Zpos m <= 2 ^ 52).
Proof.
  change (2 ^ 52) with (Zpos 4503599627370496).
  generalize 4503599627370496%positive. intros C.
  unfold SFleb. cbn [SFcompare].
  destruct (-21 ?= e) eqn:Ec; try discriminate.
  - apply Z.compare_eq in Ec. subst e. intros H. right. split; [ reflexivity | ].
    apply Pos2Z.pos_le_pos.
    destruct (Pos.compare_cont Eq C m) eqn:Em; try discriminate H.
    + apply Pos.compare_eq in Em. subst m. apply Pos.le_refl.
    + apply Pos.lt_le_incl. apply Pos.compare_gt_iff. exact Em.
  - intros _. left. apply Z.compare_gt_iff in Ec. exact Ec.
Qed.

(** A Number in [-2^31, 2^31) truncates to a signed 32-bit integer. *)
Lemma truncate_int32 (y : float) :
  (-0x1p31 <=? y)%float = true -> (y <? 0x1p31)%float = true ->
  - 2 ^ 31 <= truncate y < 2 ^ 31.
Proof.
  rewrite FloatAxioms.leb_spec, FloatAxioms.ltb_spec, Prim2SF_pow31, Prim2SF_neg_pow31.
  unfold truncate. pose proof (Prim2SF_valid y) as Hv.
  destruct (Prim2SF y) as [sy | sy | | sy my ey]; try (intros _ _; split; [ discriminate | reflexivity ]).
  destruct (valid_finite_bounds _ _ _ Hv) as [Hm He]. clear Hv.
  destruct sy; cbn [cond_Zopp]; intros Hge Hlt.
  - apply SFleb_neg_pow31 in Hge. clear Hlt.
    pose proof (shiftl_le_pow31 my ey Hm Hge). lia.
  - apply SFltb_pow31 in Hlt. clear Hge.
    pose proof (shiftl_lt_pow31 my ey Hm Hlt). lia.
Qed.

(** On those Numbers [~~] is truncation toward zero. *)
Lemma double_bitnot_truncate (y : float) :
  (-0x1p31 <=? y)%float = true -> (y <? 0x1p31)%float = true ->
  bitnot (bitnot y) = Z2F (truncate y).
Proof.
  intros Hge Hlt. rewrite double_bitnot. unfold ToInt32.
  rewrite wrap32_small by (apply truncate_int32; assumption). reflexivity.
Qed.

(** *** Rounding never turns a non-zero value at a representable exponent into zero *)

Lemma shr_fexp_pos (m : positive) (e : Z) :
  -1074 <= e ->
  0 < shr_m (fst (shr_fexp prec emax (Zpos m) e loc_Exact)) /\
  -1074 <= snd (shr_fexp prec emax (Zpos m) e loc_Exact).
Proof.
  intros He. unfold shr_fexp, shr. cbn [Zdigits2 shr_record_of_loc].
  pose proof (digits2_bounds m) as [Hl _].
  pose proof (Pos2Z.is_pos (digits2_pos m)) as Hd.
  destruct (fexp prec emax (Zpos (digits2_pos m) + e) - e) as [ | q | q ] eqn:En;
    cbn [fst snd shr_m]; try (split; lia).
  assert (Hq : Zpos q = Zpos (digits2_pos m) - 53).
  { unfold fexp, SpecFloat.emin in En. change prec with 53 in En. change emax with 1024 in En. lia. }
  split; [ | lia ].
  rewrite iter_pos_nat. destruct (Pos2Nat.is_succ q) as [n En'].
  rewrite En'. assert (Hn : Zpos q = Z.of_nat (S n)) by lia.
  pose proof (shr_iter_spec n (Zpos m) ltac:(lia)) as H. cbv zeta in H.
  destruct (Nat.iter (S n) shr_1 _) as [qm r s]. cbn [shr_m shr_r shr_s] in H |- *.
  destruct H as [Hqm [t [E [Ht _]]]].
  assert (H2n : 0 < 2 ^ Z.of_nat n) by (apply Z.pow_pos_nonneg; lia).
  rewrite Nat2Z.inj_succ, Z.pow_succ_r in E by lia.
  assert (Hlow : Zpos m < (qm + 1) * (2 * 2 ^ Z.of_nat n)) by (destruct r; cbn [Z.b2z] in E; lia).
  assert (Hbig : 2 * 2 ^ Z.of_nat n <= Zpos m).
  { replace (2 * 2 ^ Z.of_nat n) with (2 ^ Z.of_nat (S n))
      by (rewrite Nat2Z.inj_succ, Z.pow_succ_r by lia; reflexivity).
    rewrite <- Hn, Hq. etransitivity; [ | exact Hl ]. apply Z.pow_le_mono_r; lia. }
  destruct (Z.le_gt_cases qm 0) as [Hle | Hgt]; [ exfalso | exact Hgt ].
  assert (qm = 0) by lia. subst qm. lia.
Qed.

Lemma binary_round_aux_nonzero (s s' : bool) (m : positive) (e : Z) :
  -1074 <= e -> binary_round_aux prec emax s (Zpos m) e loc_Exact <> S754_zero s'.
Proof.
  intros He. unfold binary_round_aux.
  pose proof (shr_fexp_pos m e He) as [H1 H1e].
  destruct (shr_fexp prec emax (Zpos m) e loc_Exact) as [mrs1 e1]. cbn [fst snd] in H1, H1e.
  assert (Hr : 0 < round_nearest_even (shr_m mrs1) (loc_of_shr_record mrs1)).
  { unfold round_nearest_even.
    destruct (loc_of_shr_record mrs1) as [ | [ | | ]]; try lia.
    destruct (Z.even (shr_m mrs1)); lia. }
  destruct (round_nearest_even (shr_m mrs1) (loc_of_shr_record mrs1)) as [ | m1 | m1 ]; try lia.
  pose proof (shr_fexp_pos m1 e1 H1e) as [H2 _].
  destruct (shr_fexp prec emax (Zpos m1) e1 loc_Exact) as [mrs2 e2]. cbn [fst] in H2.
  destruct (shr_m mrs2); try lia.
  - destruct (e2 <=? emax - prec); discriminate.
Qed.

Lemma binary_round_nonzero (s s' : bool) (m : positive) (e : Z) :
  -1074 <= e -> binary_round prec emax s m e <> S754_zero s'.
Proof.
  intros He. unfold binary_round, shl_align.
  assert (Hf : -1074 <= fexp prec emax (Zpos (digits2_pos m) + e)).
  { unfold fexp, SpecFloat.emin. change prec with 53. change emax with 1024. lia. }
  destruct (fexp prec emax (Zpos (digits2_pos m) + e) - e);
    apply binary_round_aux_nonzero; assumption.
Qed.

(** A sum with a positive finite Number is never -0. *)
Lemma SFadd_pos_not_neg_zero (mx : positive) (ex : Z) (y : spec_float) :
  -1074 <= ex -> valid_binary y = true ->
  SFadd prec emax (S754_finite false mx ex) y <> S754_zero true.
Proof.
  intros Hex Hy. destruct y as [sy | sy | | sy my ey]; cbn [SFadd]; try discriminate.
  destruct (valid_finite_bounds _ _ _ Hy) as [_ Hey].
  unfold binary_normalize.
  match goal with |- context [match ?z with Z0 => _ | Zpos _ => _ | Zneg _ => _ end] =>
    destruct z end; try discriminate; apply binary_round_nonzero; lia.
Qed.

Lemma half_plus_not_neg_zero (t : float) : Prim2SF (0.5 + t) <> S754_zero true.
Proof.
  rewrite FloatAxioms.add_spec.
  change (Prim2SF 0.5) with (S754_finite false 4503599627370496 (-53)).
  apply SFadd_pos_not_neg_zero; [ lia | apply Prim2SF_valid ].
Qed.

(** *** [~~] and [Math.floor] *)

Lemma Prim2SF_zero : Prim2SF 0 = S754_zero false.
Proof. reflexivity. Qed.

(** On a Number in [0, 2^31) other than -0, [Math.floor] is truncation. *)
Lemma floor_truncate (y : float) :
  (0 <=? y)%float = true -> (y <? 0x1p31)%float = true ->
  Prim2SF y <> S754_zero true -> Math_floor y = Z2F (truncate y).
Proof.
  rewrite FloatAxioms.leb_spec, FloatAxioms.ltb_spec, Prim2SF_pow31, Prim2SF_zero.
  unfold Math_floor, truncate. intros Hge Hlt Hnz.
  destruct (Prim2SF y) as [sy | sy | | sy my ey] eqn:Ey; try discriminate Hlt.
  - destruct sy; [ congruence | ]. apply Prim2SF_inj. rewrite Ey. reflexivity.
  - destruct sy; discriminate.
  - destruct sy; [ discriminate Hge | ].
    apply SFltb_pow31 in Hlt. cbn [cond_Zopp].
    destruct (Z.leb_spec 0 ey) as [H | H]; [ lia | reflexivity ].
Qed.

Lemma nonneg_ge_neg_pow31 (y : float) :
  (0 <=? y)%float = true -> (-0x1p31 <=? y)%float = true.
Proof.
  rewrite !FloatAxioms.leb_spec, Prim2SF_neg_pow31, Prim2SF_zero. unfold SFleb.
  destruct (Prim2SF y) as [sy | sy | | sy my ey]; cbn [SFcompare]; try discriminate;
    try reflexivity; destruct sy; try discriminate; reflexivity.
Qed.

End TruncFacts.

(** ** More facts about comparisons and signs *)
Module OrderFacts.
Import Number NumberFacts.

Lemma is_nan_true (x : float) : is_nan x = true <-> Prim2SF x = S754_nan.
Proof.
  split.
  - intros H. destruct (Prim2SF x) eqn:E; try reflexivity; exfalso;
      assert (Hn : is_nan x = false) by (apply is_nan_false; rewrite E; discriminate);
      congruence.
  - intros H. destruct (is_nan x) eqn:E; [ reflexivity | ].
    apply is_nan_false in E. contradiction.
Qed.

Lemma leb_refl (x : float) : is_nan x = false -> (x <=? x)%float = true.
Proof.
  rewrite is_nan_false, FloatAxioms.leb_spec. intros H. unfold SFleb.
  rewrite SFcompare_refl by exact H. reflexivity.
Qed.

Lemma leb_true_not_nan (x y : float) :
  (x <=? y)%float = true -> is_nan x = false /\ is_nan y = false.
Proof.
  rewrite FloatAxioms.leb_spec, !is_nan_false. unfold SFleb. intros H.
  split; intros E; rewrite E in H; [ | destruct (Prim2SF x) ]; discriminate H.
Qed.

Lemma ltb_nan_l (x y : float) : is_nan x = true -> (x <? y)%float = false.
Proof.
  rewrite is_nan_true, FloatAxioms.ltb_spec. intros ->. reflexivity.
Qed.

Lemma ltb_nan_r (x y : float) : is_nan y = true -> (x <? y)%float = false.
Proof.
  rewrite is_nan_true, FloatAxioms.ltb_spec. intros ->. unfold SFltb.
  destruct (Prim2SF x); reflexivity.
Qed.

(** The classification of [Prim2SF] by the predicates of [PrimFloat]. *)
Lemma is_infinity_true (x : float) :
  is_infinity x = true -> exists s, Prim2SF x = S754_infinity s \/ Prim2SF x = S754_nan \/ Prim2SF x = S754_zero s.
Proof.
  intros H. unfold Prim2SF. rewrite H.
  destruct (is_nan x); [ exists false; right; left; reflexivity | ].
  destruct (PrimFloat.is_zero x); [ exists (get_sign x); right; right; reflexivity | ].
  exists (get_sign x). left. reflexivity.
Qed.

Lemma not_infinity (x : float) (s : bool) :
  is_infinity x = false -> Prim2SF x <> S754_infinity s.
Proof.
  intros H. unfold Prim2SF. rewrite H.
  destruct (is_nan x); [ discriminate | ].
  destruct (PrimFloat.is_zero x); [ discriminate | ].
  destruct (Z.frexp x) as [r ex].
  destruct (shr_fexp prec emax _ _ loc_Exact) as [mrs e'].
  destruct (shr_m mrs); discriminate.
Qed.

(** NaN and the infinities truncate to 0. *)
Lemma truncate_not_finite (x : float) :
  is_nan x || is_infinity x = true -> truncate x = 0.
Proof.
  intros H. unfold truncate. apply orb_prop in H. destruct H as [H | H].
  - apply is_nan_true in H. rewrite H. reflexivity.
  - destruct (is_infinity_true x H) as [s [E | [E | E]]]; rewrite E; reflexivity.
Qed.

(** *** Signs *)

Lemma SFopp_binary_round_aux (s : bool) (m e : Z) (l : location) :
  SFopp (binary_round_aux prec emax s m e l) = binary_round_aux prec emax (negb s) m e l.
Proof.
  unfold binary_round_aux.
  destruct (shr_fexp prec emax m e l) as [mrs e1].
  destruct (shr_fexp prec emax _ e1 loc_Exact) as [mrs' e2].
  destruct (shr_m mrs'); try reflexivity.
  destruct (e2 <=? emax - prec); reflexivity.
Qed.

Lemma SFmul_opp_l (x y : spec_float) :
  SFmul prec emax (SFopp x) y = SFopp (SFmul prec emax x y).
Proof.
  destruct x as [sx | sx | | sx mx ex], y as [sy | sy | | sy my ey]; cbn [SFopp SFmul];
    try reflexivity; try (destruct sx, sy; reflexivity).
  rewrite SFopp_binary_round_aux. destruct sx, sy; reflexivity.
Qed.

Lemma mul_opp_l (x y : float) : (- x * y)%float = (- (x * y))%float.
Proof.
  apply Prim2SF_inj.
  rewrite FloatAxioms.opp_spec, !FloatAxioms.mul_spec, FloatAxioms.opp_spec.
  apply SFmul_opp_l.
Qed.

(** A finite Number minus itself is +0. *)
Lemma sub_diag (x : float) :
  is_nan x = false -> is_infinity x = false -> (x - x)%float = 0%float.
Proof.
  intros Hn Hi. apply Prim2SF_inj. rewrite FloatAxioms.sub_spec.
  apply is_nan_false in Hn. pose proof (fun s => not_infinity x s Hi) as Hi'.
  change (Prim2SF 0) with (S754_zero false).
  destruct (Prim2SF x) as [s | s | | s m e]; try congruence.
  - destruct s; reflexivity.
  - unfold SF64sub. cbn [SFsub]. cbv zeta. rewrite Z.sub_diag. reflexivity.
Qed.

End OrderFacts.

(** ** Properties of the math helpers *)
Module MathProps.
Import Number NumberFacts math.
Local Open Scope float_scope.
Local Open Scope js_scope.

(** C5: for Numbers [val], [low], [high] with [low] not NaN (the helpers take
    finite Numbers), [clamp] returns [low] when [val < low], returns [high]
    when [val >= low] and [val > high], and returns [val] otherwise; and
    clamp(5, 0, 10) = 5, clamp(-1, 0, 10) = 0, clamp(11, 0, 10) = 10. *)
Theorem clamp_cases (val low high : float) :
  is_nan low = false ->
  ((val <? low) = true -> clamp val low high = low) /\
  ((low <=? val) = true -> (val >? high) = true -> clamp val low high = high) /\
  ((val <? low) = false -> (low <=? val) && (val >? high) = false ->
   clamp val low high = val) /\
  clamp 5 0 10 = 5 /\ clamp (-1) 0 10 = 0 /\ clamp 11 0 10 = 10.
Proof.
  intros Hlow. unfold clamp, unary_plus. repeat split.
  - intros ->. reflexivity.
  - intros Hge Hgt. rewrite (leb_true_ltb _ _ Hge), Hgt. reflexivity.
  - intros Hlt Hno. rewrite Hlt.
    destruct (val >? high) eqn:Hgt; [ exfalso | reflexivity ].
    destruct (ltb_true_not_nan _ _ Hgt) as [_ Hval].
    rewrite (ltb_false_leb _ _ Hlt Hval Hlow) in Hno. discriminate Hno.
Qed.

Lemma clamp_cases_witness :
  is_nan 0 = false /\ clamp 5 0 10 = 5 /\ clamp (-1) 0 10 = 0 /\ clamp 11 0 10 = 10.
Proof.
  split; [ reflexivity | ].
  apply (clamp_cases 5 0 10). reflexivity.
Defined.

(** C7: [toBeCloseTo(expected, actual, precision)] is true exactly when
    |expected - actual| < 10^-precision / 2 (the power being the platform's
    [Math.pow]); the precision defaults to 2; and with Math.pow(10, -2) = 0.01,
    toBeCloseTo(10, 10.004, 2) is true and toBeCloseTo(10, 10.1, 2) is false. *)
Theorem toBeCloseTo_spec (Math_pow : float -> float -> float) :
  Math_pow 10 (-2) = 0.01 ->
  (forall expected actual precision,
      toBeCloseTo Math_pow expected actual (Some precision) = true <->
      (Math_abs (expected - actual) <? Math_pow 10 (- precision) / 2) = true) /\
  (forall expected actual,
      toBeCloseTo Math_pow expected actual None =
      toBeCloseTo Math_pow expected actual (Some 2)) /\
  toBeCloseTo Math_pow 10 10.004 (Some 2) = true /\
  toBeCloseTo Math_pow 10 10.1 (Some 2) = false.
Proof.
  intros Hpow. unfold toBeCloseTo. repeat split; try (intros H; exact H).
  - change (PrimFloat.opp 2) with (-2). rewrite Hpow. reflexivity.
  - change (PrimFloat.opp 2) with (-2). rewrite Hpow. reflexivity.
Qed.

Lemma toBeCloseTo_spec_witness :
  Math_pow_ref 10 (-2) = 0.01 /\
  toBeCloseTo Math_pow_ref 10 10.004 (Some 2) = true /\
  toBeCloseTo Math_pow_ref 10 10.1 (Some 2) = false.
Proof.
  split; [ reflexivity | ].
  apply (toBeCloseTo_spec Math_pow_ref). reflexivity.
Defined.

(** C9: whatever [isPowerOfFour] accepts, [isPowerOfTwo] accepts; this holds
    for every Number, integers included. *)
Theorem isPowerOfFour_isPowerOfTwo (val : float) :
  isPowerOfFour val = true -> isPowerOfTwo val = true.
Proof.
  unfold isPowerOfFour, isPowerOfTwo.
  destruct ((val === 0) || (val === 2) || (val === 3)); [ discriminate | ].
  destruct (val === 1) eqn:E1.
  - intros _. apply eqb_true_eq in E1; [ subst val; reflexivity | ].
    intros s. vm_compute. discriminate.
  - destruct ((val & (val - 1)) === 0); [ reflexivity | discriminate ].
Qed.

Lemma isPowerOfFour_isPowerOfTwo_witness :
  isPowerOfFour 16 = true /\ isPowerOfTwo 16 = true.
Proof.
  split; [ reflexivity | ].
  apply (isPowerOfFour_isPowerOfTwo 16). reflexivity.
Defined.

(** C10: [toBeCloseTo] does not depend on the order of its first two
    arguments, whatever the precision (given or defaulted). *)
Theorem toBeCloseTo_sym (Math_pow : float -> float -> float)
    (a b : float) (precision : option float) :
  toBeCloseTo Math_pow a b precision = toBeCloseTo Math_pow b a precision.
Proof.
  unfold toBeCloseTo, Math_abs. rewrite (abs_sub_comm a b). reflexivity.
Qed.

End MathProps.

(** ** Properties of the input module *)
Module InputProps.
Import input.

(** C8: the input module exposes the flag [preventDefault], a boolean
    declared with [let] (so it can be assigned again), whose value when the
    module is loaded is [true]. *)
Theorem preventDefault_initial :
  value preventDefault = true /\
  mutable preventDefault = true /\
  forall v, option_map value (assign preventDefault v) = Some v.
Proof. repeat split. Qed.

End InputProps.

(** ** A sample of [Math.random()] times an integer *)
Module SampleFacts.
Import Number Spec NumberFacts BitFacts IntFacts TruncFacts OrderFacts math.

(** *** An upper bound on a rounded product *)

(** What [shr_fexp] does to an exact non-negative mantissa. *)
Lemma shr_fexp_spec (m e : Z) :
  0 <= m ->
  let n := fexp prec emax (Zdigits2 m + e) - e in
  let mrs := fst (shr_fexp prec emax m e loc_Exact) in
  let e' := snd (shr_fexp prec emax m e loc_Exact) in
  (n <= 0 -> mrs = {| shr_m := m; shr_r := false; shr_s := false |} /\ e' = e) /\
  (0 < n -> e' = e + n /\ 0 <= shr_m mrs /\
            shr_m mrs * 2 ^ n + Z.b2z (shr_r mrs) * 2 ^ (n - 1) <= m).
Proof.
  intros Hm n mrs e'. subst mrs e'. unfold shr_fexp. fold n.
  cbn [shr_record_of_loc]. unfold shr.
  destruct n as [ | p | p ] eqn:En; cbn [fst snd]; (split; [ intros Hn | intros Hn ]); try lia;
    try (split; reflexivity).
  rewrite iter_pos_nat. destruct (Pos2Nat.is_succ p) as [k Ek]. rewrite Ek.
  assert (Hp : Zpos p = Z.of_nat (S k)) by lia.
  pose proof (shr_iter_spec k m Hm) as H. cbv zeta in H.
  destruct (Nat.iter (S k) shr_1 _) as [q r s]. cbn [shr_m shr_r shr_s] in H |- *.
  destruct H as [Hq [t [E [Ht _]]]].
  assert (H2 : 0 < 2 ^ Z.of_nat k) by (apply Z.pow_pos_nonneg; lia).
  replace (Zpos p - 1) with (Z.of_nat k) by lia.
  rewrite Hp, Nat2Z.inj_succ, Z.pow_succ_r in * by lia.
  split; [ reflexivity | ]. split; [ exact Hq | ].
  destruct r; cbn [Z.b2z] in *; lia.
Qed.

Lemma round_nearest_even_bounds (mrs : shr_record) :
  shr_m mrs <= round_nearest_even (shr_m mrs) (loc_of_shr_record mrs) <= shr_m mrs + Z.b2z (shr_r mrs).
Proof.
  destruct mrs as [q [ | ] [ | ]]; cbn [shr_m shr_r loc_of_shr_record round_nearest_even Z.b2z];
    try lia.
  destruct (Z.even q); lia.
Qed.

(** The result of rounding an exact positive mantissa [m] at exponent [e],
    as a mantissa [q] at an exponent [e2 >= e] whose value exceeds [m] by at
    most half a unit of the first shift. *)
Lemma binary_round_aux_upper (s : bool) (m : positive) (e : Z) :
  let n := fexp prec emax (Zpos (digits2_pos m) + e) - e in
  exists q e2,
    binary_round_aux prec emax s (Zpos m) e loc_Exact =
      match q with
      | Z0 => S754_zero s
      | Zpos p => if e2 <=? emax - prec then S754_finite s p e2 else S754_infinity s
      | Zneg _ => S754_nan
      end /\
    0 <= q /\ e <= e2 /\
    q * 2 ^ (e2 - e) <= Zpos m + (if 0 <? n then 2 ^ (n - 1) else 0).
Proof.
  intros n. unfold binary_round_aux.
  pose proof (shr_fexp_spec (Zpos m) e ltac:(lia)) as H1. cbv zeta in H1.
  cbn [Zdigits2] in H1. fold n in H1.
  destruct (shr_fexp prec emax (Zpos m) e loc_Exact) as [mrs1 e1]. cbn [fst snd] in H1.
  pose proof (round_nearest_even_bounds mrs1) as Hrn.
  set (rn := round_nearest_even (shr_m mrs1) (loc_of_shr_record mrs1)) in *.
  (* the rounded mantissa at exponent e1, against m *)
  assert (Hstep : 0 <= rn /\ e <= e1 /\
                  rn * 2 ^ (e1 - e) <= Zpos m + (if 0 <? n then 2 ^ (n - 1) else 0)).
  { destruct H1 as [H1a H1b]. destruct (Z.ltb_spec 0 n) as [Hn | Hn].
    - destruct (H1b Hn) as [He1 [Hq Hlo]]. subst e1.
      replace (e + n - e) with n by lia.
      assert (H2n : 0 < 2 ^ (n - 1)) by (apply Z.pow_pos_nonneg; lia).
      assert (E2 : 2 ^ n = 2 * 2 ^ (n - 1)).
      { replace n with (Z.succ (n - 1)) at 1 by lia. apply Z.pow_succ_r. lia. }
      split; [ lia | ]. split; [ lia | ].
      assert (Hmul : rn * 2 ^ n <= (shr_m mrs1 + Z.b2z (shr_r mrs1)) * 2 ^ n)
        by (apply Z.mul_le_mono_nonneg_r; lia).
      destruct (shr_r mrs1); cbn [Z.b2z] in *; lia.
    - destruct (H1a Hn) as [-> ->]. cbn [shr_m shr_r Z.b2z] in Hrn.
      assert (rn = Zpos m) by lia.
      replace (e - e) with 0 by lia. split; [ lia | ]. split; lia. }
  destruct Hstep as [Hrn0 [He1 Hval]]. clear H1 Hrn.
  pose proof (shr_fexp_spec rn e1 Hrn0) as H2. cbv zeta in H2.
  destruct (shr_fexp prec emax rn e1 loc_Exact) as [mrs2 e2]. cbn [fst snd] in H2.
  exists (shr_m mrs2), e2. split; [ reflexivity | ].
  destruct H2 as [H2a H2b].
  assert (Hp1 : 0 < 2 ^ (e1 - e)) by (apply Z.pow_pos_nonneg; lia).
  destruct (Z.ltb_spec 0 (fexp prec emax (Zdigits2 rn + e1) - e1)) as [Hn2 | Hn2].
  - destruct (H2b Hn2) as [He2 [Hq2 Hlo2]].
    set (n2 := fexp prec emax (Zdigits2 rn + e1) - e1) in *.
    split; [ exact Hq2 | ]. split; [ lia | ].
    replace (e2 - e) with (n2 + (e1 - e)) by lia.
    rewrite Z.pow_add_r by lia.
    assert (H2n2 : 0 <= 2 ^ (n2 - 1)) by (apply Z.pow_nonneg; lia).
    assert (shr_m mrs2 * 2 ^ n2 <= rn) by (destruct (shr_r mrs2); cbn [Z.b2z] in Hlo2; lia).
    assert (shr_m mrs2 * 2 ^ n2 * 2 ^ (e1 - e) <= rn * 2 ^ (e1 - e))
      by (apply Z.mul_le_mono_nonneg_r; lia).
    lia.
  - destruct (H2a Hn2) as [-> ->]. cbn [shr_m]. split; [ exact Hrn0 | ]. split; [ lia | exact Hval ].
Qed.

Lemma digits2_le (p : positive) (k : Z) : Zpos p < 2 ^ k -> Zpos (digits2_pos p) <= k.
Proof.
  intros Hp. pose proof (digits2_bounds p) as [Hl _].
  pose proof (Pos2Z.is_pos (digits2_pos p)) as Hd.
  destruct (Z.le_gt_cases (Zpos (digits2_pos p)) k) as [H | H]; [ exact H | exfalso ].
  destruct (Z.lt_ge_cases k 0) as [Hk | Hk]; [ rewrite Z.pow_neg_r in Hp by exact Hk; lia | ].
  assert (2 ^ k <= 2 ^ (Zpos (digits2_pos p) - 1)) by (apply Z.pow_le_mono_r; lia). lia.
Qed.

(** A sample below 1 times an integer [D] of at most 31 bits rounds to a
    value below [D]. *)
Lemma SFmul_sample_below (mr : positive) (er D : Z) :
  valid_binary (S754_finite false mr er) = true -> er <= -53 -> 1 <= D <= 2 ^ 31 ->
  exists q e2,
    SFmul prec emax (S754_finite false mr er) (canonZ D) =
      match q with
      | Z0 => S754_zero false
      | Zpos p => if e2 <=? emax - prec then S754_finite false p e2 else S754_infinity false
      | Zneg _ => S754_nan
      end /\
    0 <= q /\ (0 <= e2 -> q * 2 ^ e2 < D) /\ (e2 < 0 -> q < D * 2 ^ (- e2)).
Proof.
  intros Hv Her HD. destruct (valid_finite_bounds _ _ _ Hv) as [Hmr Hemin].
  destruct D as [ | d | d ]; try lia. cbn [canonZ SFmul xorb].
  assert (Hd53 : Zpos d < 2 ^ prec) by (change prec with 53; lia).
  destruct (canon_m_spec d Hd53) as [Hmd Hk]. destruct (canon_canonical d Hd53) as [Hc He0].
  pose proof (digits2_bounds d) as [Hdl Hdu].
  pose proof (Pos2Z.is_pos (digits2_pos d)) as Hdpos.
  assert (Hdg : Zpos (digits2_pos d) <= 32) by (apply digits2_le; lia).
  set (md := canon_m d) in *. set (ed := canon_e d) in *.
  assert (Hed : ed = Zpos (digits2_pos d) - 53) by reflexivity.
  change prec with 53 in Hmd, Hk.
  assert (Hmd52 : 2 ^ 52 <= Zpos md).
  { rewrite Hmd. replace 52 with ((Zpos (digits2_pos d) - 1) + (53 - Zpos (digits2_pos d))) by lia.
    rewrite Z.pow_add_r by lia. apply Z.mul_le_mono_nonneg_r; [ apply Z.pow_nonneg; lia | exact Hdl ]. }
  assert (HDmd : Zpos md = Zpos d * 2 ^ (- ed)) by (rewrite Hmd; f_equal; f_equal; lia).
  destruct (binary_round_aux_upper false (mr * md) (er + ed)) as [q [e2 [E [Hq [He2 Hval]]]]].
  exists q, e2. split; [ exact E | ]. split; [ exact Hq | ].
  set (n := fexp prec emax (Zpos (digits2_pos (mr * md)) + (er + ed)) - (er + ed)) in *.
  (* the half unit of the first shift is below md *)
  assert (Hhalf : (if 0 <? n then 2 ^ (n - 1) else 0) < Zpos md).
  { destruct (Z.ltb_spec 0 n) as [Hn | Hn]; [ | lia ].
    assert (Hdm : Zpos (digits2_pos (mr * md)) <= 106).
    { apply digits2_le. rewrite Pos2Z.inj_mul.
      assert (Zpos md < 2 ^ 53).
      { rewrite Hmd. replace 53 with (Zpos (digits2_pos d) + (53 - Zpos (digits2_pos d))) at 2 by lia.
        rewrite Z.pow_add_r by lia. apply Z.mul_lt_mono_pos_r; [ apply Z.pow_pos_nonneg; lia | exact Hdu ]. }
      change (2 ^ 106) with (2 ^ 53 * 2 ^ 53). nia. }
    assert (Hn53 : n <= 53).
    { unfold n, fexp, SpecFloat.emin. change prec with 53. change emax with 1024. lia. }
    destruct (Z.eq_dec n 53) as [En | Hne].
    - rewrite En. change (2 ^ (53 - 1)) with (2 ^ 52).
      assert (Hd106 : Zpos (digits2_pos (mr * md)) = 106).
      { unfold n, fexp, SpecFloat.emin in En. change prec with 53 in En. change emax with 1024 in En. lia. }
      pose proof (digits2_bounds (mr * md)) as [Hl _]. rewrite Hd106, Pos2Z.inj_mul in Hl.
      change (2 ^ (106 - 1)) with (2 ^ 53 * 2 ^ 52) in Hl.
      destruct (Z.eq_dec (Zpos md) (2 ^ 52)) as [Em | Hm]; [ exfalso | lia ].
      rewrite Em in Hl. nia.
    - assert (2 ^ (n - 1) <= 2 ^ 51) by (apply Z.pow_le_mono_r; lia).
      change (2 ^ 51) with 2251799813685248 in *. change (2 ^ 52) with 4503599627370496 in *. lia. }
  (* so the rounded value, at exponent er + ed, is below D * 2^-(er + ed) *)
  assert (Hpa : Zpos mr + 1 <= 2 ^ (- er)).
  { assert (2 ^ 53 <= 2 ^ (- er)) by (apply Z.pow_le_mono_r; lia). lia. }
  assert (Hlt : q * 2 ^ (e2 - (er + ed)) < Zpos d * 2 ^ (- (er + ed))).
  { replace (- (er + ed)) with (- ed + - er) by lia. rewrite Z.pow_add_r by lia.
    rewrite Z.mul_assoc, <- HDmd. rewrite Pos2Z.inj_mul in Hval.
    assert (Zpos md * (Zpos mr + 1) <= Zpos md * 2 ^ (- er))
      by (apply Z.mul_le_mono_nonneg_l; lia).
    lia. }
  split.
  - intros H0. replace (e2 - (er + ed)) with (e2 + - (er + ed)) in Hlt by lia.
    rewrite Z.pow_add_r, Z.mul_assoc in Hlt by lia.
    apply Z.mul_lt_mono_pos_r in Hlt; [ exact Hlt | apply Z.pow_pos_nonneg; lia ].
  - intros Hneg. replace (- (er + ed)) with (- e2 + (e2 - (er + ed))) in Hlt by lia.
    rewrite Z.pow_add_r, Z.mul_assoc in Hlt by lia.
    apply Z.mul_lt_mono_pos_r in Hlt; [ exact Hlt | apply Z.pow_pos_nonneg; lia ].
Qed.

Lemma Prim2SF_one : Prim2SF 1 = S754_finite false 4503599627370496 (-52).
Proof. reflexivity. Qed.

Lemma SFltb_finite_pos (m c : positive) (e ec : Z) :
  SFltb (S754_finite false m e) (S754_finite false c ec) = true ->
  e < ec \/ (e = ec /\ Zpos m < Zpos c).
Proof.
  unfold SFltb. cbn [SFcompare].
  destruct (e ?= ec) eqn:Ec; try discriminate.
  - apply Z.compare_eq in Ec. subst e.
    destruct (Pos.compare_cont Eq m c) eqn:Em; try discriminate.
    intros _. right. split; [ reflexivity | ].
    apply Pos2Z.pos_lt_pos. apply Pos.compare_lt_iff. exact Em.
  - intros _. left. apply Z.compare_lt_iff in Ec. exact Ec.
Qed.

(** A sample in [0, 1) is a zero or a positive Number with exponent at most -53. *)
Lemma sample_cases (r : float) :
  (0 <=? r)%float = true -> (r <? 1)%float = true ->
  (exists s, Prim2SF r = S754_zero s) \/
  (exists mr er, Prim2SF r = S754_finite false mr er /\ er <= -53 /\
                 valid_binary (S754_finite false mr er) = true).
Proof.
  rewrite FloatAxioms.leb_spec, FloatAxioms.ltb_spec, Prim2SF_zero, Prim2SF_one.
  pose proof (Prim2SF_valid r) as Hv.
  destruct (Prim2SF r) as [s | s | | s m e]; intros Hge Hlt.
  - left. exists s. reflexivity.
  - destruct s; discriminate.
  - discriminate.
  - right. destruct s; [ discriminate Hge | ]. exists m, e.
    split; [ reflexivity | ]. split; [ | exact Hv ].
    apply SFltb_finite_pos in Hlt. destruct Hlt as [Hlt | [-> Hm]]; [ lia | exfalso ].
    cbn [SpecFloat.valid_binary] in Hv. unfold bounded, canonical_mantissa in Hv.
    apply andb_prop in Hv. destruct Hv as [Hc _]. apply Z.eqb_eq in Hc.
    assert (Hd : Zpos (digits2_pos m) <= 52).
    { apply digits2_le. change (2 ^ 52) with (Zpos 4503599627370496). exact Hm. }
    unfold fexp, SpecFloat.emin in Hc. change prec with 53 in Hc. change emax with 1024 in Hc. lia.
Qed.

(** The product of a sample and an integer [D <= 2^31]: it truncates into
    [0, D), and it is a zero or a positive Number below 1 ulp of an integer. *)
Lemma mul_sample (r : float) (D : Z) :
  (0 <=? r)%float = true -> (r <? 1)%float = true -> 1 <= D <= 2 ^ 31 ->
  0 <= truncate (r * Z2F D) < D /\
  ((exists s, Prim2SF (r * Z2F D) = S754_zero s) \/
   Math_floor (r * Z2F D) = Z2F (truncate (r * Z2F D))).
Proof.
  intros Hge Hlt HD.
  assert (HDs : Z.abs D < 2 ^ prec) by (change prec with 53; lia).
  pose proof (Prim2SF_valid (r * Z2F D)) as Hvalid.
  unfold Math_floor, truncate. revert Hvalid.
  rewrite FloatAxioms.mul_spec, (Prim2SF_Z2F D HDs).
  destruct (sample_cases r Hge Hlt) as [[s Er] | [mr [er [Er [Her Hv]]]]]; rewrite Er.
  - intros _. destruct D as [ | d | d ]; try lia. cbn. split; [ lia | ].
    left. exists s. destruct s; reflexivity.
  - destruct (SFmul_sample_below mr er D Hv Her HD) as [q [e2 [E [Hq [Hpos Hneg]]]]].
    unfold SF64mul. rewrite E. clear E.
    destruct q as [ | p | p ]; try lia.
    + intros _. split; [ lia | ]. left. exists false. reflexivity.
    + destruct (Z.leb_spec e2 (emax - prec)) as [Hle | Hgt].
      * intros Hvalid. destruct (valid_finite_bounds _ _ _ Hvalid) as [Hp53 _].
        cbn [cond_Zopp].
        destruct (Z.lt_ge_cases e2 0) as [He2 | He2].
        -- destruct (shiftl_neg_exp p e2 He2) as [Es H0]. rewrite Es.
           split; [ split; [ exact H0 | ] | ].
           ++ apply Z.div_lt_upper_bound; [ apply Z.pow_pos_nonneg; lia | ].
              specialize (Hneg He2). lia.
           ++ right. destruct (Z.leb_spec 0 e2); [ lia | reflexivity ].
        -- exfalso. specialize (Hpos He2).
           cbn [SpecFloat.valid_binary] in Hvalid. unfold bounded, canonical_mantissa in Hvalid.
           apply andb_prop in Hvalid. destruct Hvalid as [Hc _]. apply Z.eqb_eq in Hc.
           unfold fexp, SpecFloat.emin in Hc. change prec with 53 in Hc. change emax with 1024 in Hc.
           assert (Hd53 : Zpos (digits2_pos p) = 53) by lia.
           pose proof (digits2_bounds p) as [Hl _]. rewrite Hd53 in Hl.
           change (2 ^ (53 - 1)) with 4503599627370496 in Hl.
           assert (1 <= 2 ^ e2) by (pose proof (Z.pow_pos_nonneg 2 e2); lia).
           assert (Zpos p * 1 <= Zpos p * 2 ^ e2) by (apply Z.mul_le_mono_nonneg_l; lia).
           lia.
      * intros _. exfalso. change (emax - prec) with 971 in Hgt.
        assert (He2 : 0 <= e2) by lia. specialize (Hpos He2).
        assert (2 ^ 31 <= 2 ^ e2) by (apply Z.pow_le_mono_r; lia).
        assert (1 * 2 ^ e2 <= Zpos p * 2 ^ e2) by (apply Z.mul_le_mono_nonneg_r; lia).
        lia.
Qed.

Lemma zero_plus_Z2F (x : float) (a : Z) :
  (exists s, Prim2SF x = S754_zero s) -> Z.abs a < 2 ^ prec -> (x + Z2F a)%float = Z2F a.
Proof.
  intros [s Ex] Ha. apply Prim2SF_inj.
  rewrite FloatAxioms.add_spec, Ex, (Prim2SF_Z2F a Ha).
  destruct a; cbn; destruct s; reflexivity.
Qed.

(** The value of [random] on integer limits at most 2^31 apart. *)
Lemma random_value (r : float) (a b : Z) :
  (0 <=? r)%float = true -> (r <? 1)%float = true ->
  Z.abs a < 2 ^ 52 -> Z.abs b < 2 ^ 52 -> a < b -> b - a <= 2 ^ 31 ->
  random r (Z2F a) (Z2F b) = (Math_floor (r * (Z2F b - Z2F a)) + Z2F a)%float /\
  exists n, random r (Z2F a) (Z2F b) = Z2F n /\ a <= n < b.
Proof.
  intros Hge Hlt Ha Hb Hab HD. unfold random.
  rewrite Z2F_sub by (change prec with 53; lia).
  destruct (mul_sample r (b - a) Hge Hlt ltac:(lia)) as [Ht Hfloor].
  set (V := (r * Z2F (b - a))%float) in *.
  rewrite double_bitnot. unfold ToInt32. rewrite wrap32_small by lia.
  assert (Hsum : (Z2F (truncate V) + Z2F a)%float = Z2F (truncate V + a))
    by (apply Z2F_add; change prec with 53; lia).
  split.
  - destruct Hfloor as [Hz | ->]; [ | reflexivity ].
    assert (Et : truncate V = 0).
    { unfold truncate. destruct Hz as [s ->]. reflexivity. }
    rewrite Et. assert (Hz' : exists s, Prim2SF (Math_floor V) = S754_zero s).
    { unfold Math_floor. destruct Hz as [s Ez]. rewrite Ez. exists s. exact Ez. }
    rewrite (zero_plus_Z2F _ a Hz') by (change prec with 53; lia).
    apply (zero_plus_Z2F (Z2F 0) a); [ exists false; reflexivity | change prec with 53; lia ].
  - exists (truncate V + a). split; [ exact Hsum | lia ].
Qed.

End SampleFacts.

(** ** One half plus an integer, and the unit of multiplication *)

Module HalfFacts.
Import Number Spec NumberFacts BitFacts IntFacts TruncFacts OrderFacts SampleFacts math.

(** Rounding an exact mantissa that carries extra zero bits. *)
Lemma binary_round_aux_shr (s : bool) (m m' : positive) (e e' : Z) :
  canonical_mantissa prec emax m' e' = true -> e' <= emax - prec ->
  e < e' -> Zpos m = Zpos m' * 2 ^ (e' - e) ->
  binary_round_aux prec emax s (Zpos m) e loc_Exact = S754_finite s m' e'.
Proof.
  intros Hc He Hlt Hm. pose proof Hc as Hc'. apply Z.eqb_eq in Hc'.
  assert (Hd : Zpos (digits2_pos m) = Zpos (digits2_pos m') + (e' - e)).
  { pose proof (digits2_mul_pow2 m' (e' - e)) as H. rewrite <- Hm in H. apply H. lia. }
  destruct (e' - e) as [ | d | d ] eqn:Ed; try lia.
  unfold binary_round_aux, shr_fexp. cbn [Zdigits2 shr_record_of_loc].
  replace (Zpos (digits2_pos m) + e) with (Zpos (digits2_pos m') + e') by lia.
  rewrite Hc', Ed, Hm, shr_exact by lia.
  cbn [shr_m loc_of_shr_record round_nearest_even Zdigits2 shr_record_of_loc].
  replace (e + Zpos d) with e' by lia.
  rewrite Hc', Z.sub_diag. cbn [shr shr_m].
  apply Z.leb_le in He. rewrite He. reflexivity.
Qed.

(** Multiplying by 1 changes no Number. *)
Lemma mul_one_r (x : float) : (x * 1)%float = x.
Proof.
  apply Prim2SF_inj. rewrite FloatAxioms.mul_spec, Prim2SF_one.
  pose proof (Prim2SF_valid x) as Hv.
  destruct (Prim2SF x) as [s | s | | s m e]; try (destruct s; reflexivity); try reflexivity.
  unfold SF64mul. cbn [SFmul]. rewrite xorb_false_r.
  cbn [SpecFloat.valid_binary] in Hv. unfold bounded in Hv.
  apply andb_prop in Hv. destruct Hv as [Hc He]. apply Z.leb_le in He.
  apply binary_round_aux_shr; try assumption; try lia.
  rewrite Pos2Z.inj_mul. replace (e - (e + -52)) with 52 by lia. reflexivity.
Qed.

(** Dividing by 1 changes no Number. *)
Lemma div_one_r (x : float) : (x / 1)%float = x.
Proof.
  apply Prim2SF_inj. rewrite FloatAxioms.div_spec, Prim2SF_one.
  pose proof (Prim2SF_valid x) as Hv.
  destruct (Prim2SF x) as [s | s | | s m e]; try (destruct s; reflexivity); try reflexivity.
  unfold SF64div. cbn [SFdiv]. rewrite xorb_false_r.
  cbn [SpecFloat.valid_binary] in Hv. unfold bounded in Hv.
  apply andb_prop in Hv. destruct Hv as [Hc He]. apply Z.leb_le in He.
  pose proof Hc as Hc'. apply Z.eqb_eq in Hc'.
  unfold fexp, SpecFloat.emin in Hc'. change prec with 53 in Hc'. change emax with 1024 in Hc'.
  pose proof (Pos2Z.is_pos (digits2_pos m)) as Hdpos.
  unfold SFdiv_core_binary. cbn [Zdigits2].
  change (Zpos (digits2_pos 4503599627370496)) with 53.
  set (e' := Z.min (fexp prec emax (Zpos (digits2_pos m) + e - (53 + -52))) (e - -52)).
  assert (He' : (e = -1074 /\ e' = e) \/ (-1074 < e /\ e' = e - 1)).
  { unfold e', fexp, SpecFloat.emin. change prec with 53. change emax with 1024. lia. }
  assert (Hdiv : forall sh k, 0 <= k -> sh = 52 + k ->
            Z.div_eucl (Z.shiftl (Zpos m) sh) (Zpos 4503599627370496) = (Zpos m * 2 ^ k, 0)).
  { intros sh k Hk ->. rewrite Z.shiftl_mul_pow2 by lia.
    change (Zpos 4503599627370496) with (2 ^ 52).
    assert (E : Zpos m * 2 ^ (52 + k) = Zpos m * 2 ^ k * 2 ^ 52)
      by (rewrite Z.pow_add_r by lia; ring).
    rewrite E. pose proof (Z.div_mul (Zpos m * 2 ^ k) (2 ^ 52) ltac:(lia)) as Hq.
    pose proof (Z.mod_mul (Zpos m * 2 ^ k) (2 ^ 52) ltac:(lia)) as Hr.
    unfold Z.div, Z.modulo in Hq, Hr.
    destruct (Z.div_eucl (Zpos m * 2 ^ k * 2 ^ 52) (2 ^ 52)) as [q r].
    subst q r. reflexivity. }
  destruct He' as [[Hemin Ee] | [Hnorm Ee]]; rewrite Ee.
  - replace (e - -52 - e) with 52 by lia. cbv iota.
    rewrite (Hdiv 52 0 ltac:(lia) eq_refl). rewrite Z.mul_1_r.
    change (new_location (Zpos 4503599627370496) 0) with loc_Exact.
    apply binary_round_aux_canonical; assumption.
  - replace (e - -52 - (e - 1)) with 53 by lia. cbv iota.
    rewrite (Hdiv 53 1 ltac:(lia) eq_refl).
    change (new_location (Zpos 4503599627370496) 0) with loc_Exact.
    assert (Hq : Zpos m * 2 ^ 1 = Zpos (m~0)) by lia. rewrite Hq.
    apply binary_round_aux_shr; try assumption; try lia.
    replace (e - (e - 1)) with 1 by lia. lia.
Qed.

(** A non-zero integer [z] scaled by [2^j], given as [z * 2^k] at exponent
    [j - k], normalizes to the mantissa of [z] at its exponent plus [j]. *)
Lemma binary_normalize_scaled (z k j : Z) (sz : bool) :
  z <> 0 -> Z.abs z < 2 ^ prec -> 0 <= k ->
  -1074 <= canon_e (Z.to_pos (Z.abs z)) + j <= 971 ->
  binary_normalize prec emax (z * 2 ^ k) (j - k) sz =
  S754_finite (z <? 0) (canon_m (Z.to_pos (Z.abs z))) (canon_e (Z.to_pos (Z.abs z)) + j).
Proof.
  intros Hz Hb Hk Hj.
  assert (H2 : 0 < 2 ^ k) by (apply Z.pow_pos_nonneg; lia).
  assert (Hgen : forall (s : bool) (p q : positive),
             Zpos p < 2 ^ prec -> Zpos q = Zpos p * 2 ^ k ->
             -1074 <= canon_e p + j <= 971 ->
             binary_round prec emax s q (j - k) = S754_finite s (canon_m p) (canon_e p + j)).
  { intros s p q Hp Hq Hpj.
    destruct (canon_m_spec p Hp) as [Hm Hd]. destruct (canon_canonical p Hp) as [Hc He].
    assert (Hc' : canonical_mantissa prec emax (canon_m p) (canon_e p + j) = true).
    { unfold canonical_mantissa in *. apply Z.eqb_eq in Hc. apply Z.eqb_eq.
      unfold fexp, SpecFloat.emin, canon_e in *. change prec with 53 in *. change emax with 1024 in *.
      pose proof (Pos2Z.is_pos (digits2_pos p)). lia. }
    assert (He' : canon_e p + j <= emax - prec) by (change emax with 1024; change prec with 53; lia).
    unfold canon_e in *.
    destruct (Z.le_gt_cases (Zpos (digits2_pos p) - prec + j) (j - k)) as [Hle | Hgt].
    - apply binary_round_shl; try assumption.
      rewrite Hm, Hq, <- Z.mul_assoc, <- Z.pow_add_r by lia. f_equal. f_equal. lia.
    - apply binary_round_shr; try assumption; try lia.
      rewrite Hm, Hq, <- Z.mul_assoc, <- Z.pow_add_r by lia. f_equal. f_equal. lia. }
  destruct z as [ | p | p ]; [ congruence | | ].
  - destruct (Zpos p * 2 ^ k) as [ | q | q ] eqn:E; try lia.
    change (Z.to_pos (Z.abs (Zpos p))) with p in *. change (Zpos p <? 0) with false.
    cbn [binary_normalize]. apply Hgen; [ exact Hb | lia | exact Hj ].
  - destruct (Zneg p * 2 ^ k) as [ | q | q ] eqn:E; try lia.
    change (Z.to_pos (Z.abs (Zneg p))) with p in *. change (Zneg p <? 0) with true.
    cbn [binary_normalize]. apply Hgen; [ exact Hb | lia | exact Hj ].
Qed.

(** One half plus an integer: the representation of [(2t + 1) / 2]. *)
Lemma half_plus_Z2F (t : Z) :
  - 2 ^ 31 <= t < 2 ^ 31 ->
  Prim2SF (0.5 + Z2F t) =
  S754_finite (2 * t + 1 <? 0) (canon_m (Z.to_pos (Z.abs (2 * t + 1))))
              (canon_e (Z.to_pos (Z.abs (2 * t + 1))) + -1).
Proof.
  intros Ht. rewrite FloatAxioms.add_spec, (Prim2SF_Z2F t) by (apply int32_safe; exact Ht).
  change (Prim2SF 0.5) with (S754_finite false 4503599627370496 (-53)).
  assert (Hz : 2 * t + 1 <> 0) by lia.
  assert (Hb : Z.abs (2 * t + 1) < 2 ^ prec) by (change prec with 53; lia).
  assert (Hce : -52 <= canon_e (Z.to_pos (Z.abs (2 * t + 1))) <= 0).
  { split; [ | apply canon_canonical; rewrite Z2Pos.id; lia ].
    unfold canon_e. change prec with 53. pose proof (Pos2Z.is_pos (digits2_pos (Z.to_pos (Z.abs (2 * t + 1))))). lia. }
  pose proof (binary_normalize_scaled (2 * t + 1) 52 (-1) false Hz Hb ltac:(lia) ltac:(lia)) as H.
  change (-1 - 52) with (-53) in H.
  destruct (Z.eq_dec t 0) as [-> | Ht0]; [ reflexivity | ].
  rewrite (canonZ_finite t Ht0). unfold SF64add. cbn [SFadd].
  set (et := canon_e (Z.to_pos (Z.abs t))).
  assert (Het : -52 <= et <= 0).
  { split; [ | apply canon_canonical; rewrite Z2Pos.id; change prec with 53; lia ].
    unfold et, canon_e. change prec with 53. pose proof (Pos2Z.is_pos (digits2_pos (Z.to_pos (Z.abs t)))). lia. }
  replace (Z.min (-53) et) with (-53) by lia.
  rewrite canon_aligned by (try apply int32_safe; try assumption; fold et; lia).
  rewrite shl_align_fst by lia. cbn [cond_Zopp].
  replace (-53 - -53) with 0 by lia. rewrite <- H. f_equal.
  change (Zpos 4503599627370496 * 2 ^ 0) with (2 ^ 52).
  change (- -53) with 53. change (2 ^ 53) with (2 * 2 ^ 52). ring.
Qed.

Lemma truncate_half_plus (t : Z) :
  - 2 ^ 31 <= t < 2 ^ 31 ->
  truncate (0.5 + Z2F t) = if t <? 0 then t + 1 else t.
Proof.
  intros Ht. unfold truncate. rewrite (half_plus_Z2F t Ht).
  set (p := Z.to_pos (Z.abs (2 * t + 1))).
  assert (Hp : Zpos p = Z.abs (2 * t + 1)) by (unfold p; rewrite Z2Pos.id; lia).
  assert (Hp' : Zpos p < 2 ^ prec) by (change prec with 53; lia).
  destruct (canon_m_spec p Hp') as [Hm Hd]. destruct (canon_canonical p Hp') as [_ He0].
  rewrite Z.shiftl_div_pow2 by lia. rewrite Hm. unfold canon_e.
  replace (- (Zpos (digits2_pos p) - prec + -1)) with ((prec - Zpos (digits2_pos p)) + 1) by lia.
  rewrite Z.pow_add_r by lia. change (2 ^ 1) with 2.
  assert (H2 : 0 < 2 ^ (prec - Zpos (digits2_pos p))) by (apply Z.pow_pos_nonneg; lia).
  rewrite <- Z.div_div by lia. rewrite Z.div_mul by lia.
  rewrite Hp. unfold cond_Zopp.
  destruct (Z.ltb_spec (2 * t + 1) 0) as [Hn | Hn]; destruct (Z.ltb_spec t 0) as [Hn' | Hn']; try lia.
  - replace (Z.abs (2 * t + 1)) with (1 + (- t - 1) * 2) by lia.
    rewrite Z.div_add by lia. change (1 / 2) with 0. lia.
  - replace (Z.abs (2 * t + 1)) with (1 + t * 2) by lia.
    rewrite Z.div_add by lia. change (1 / 2) with 0. lia.
Qed.

End HalfFacts.

(** ** Further properties of the math helpers *)

Module MathMore.
Import Number Spec NumberFacts BitFacts IntFacts TruncFacts OrderFacts SampleFacts HalfFacts math.
Local Open Scope float_scope.
Local Open Scope js_scope.

(** *** The power-of-two tests *)

Lemma ldexp_one_repr (k : Z) :
  (0 <= k <= 1023)%Z ->
  Prim2SF (Z.ldexp 1 k) = S754_finite false (2 ^ 52) (k - 52).
Proof.
  intros Hk.
  assert (H : forallb (fun n => let k := Z.of_nat n in
                match Prim2SF (Z.ldexp 1 k) with
                | S754_finite false m e => (Zpos m =? 2 ^ 52)%Z && (e =? k - 52)%Z
                | _ => false
                end) (seq 0 1024) = true)
    by (vm_compute; reflexivity).
  rewrite forallb_forall in H. specialize (H (Z.to_nat k)).
  cbv zeta in H. rewrite Z2Nat.id in H by lia.
  assert (Hin : In (Z.to_nat k) (seq 0 1024)) by (apply in_seq; lia).
  apply H in Hin. clear H.
  destruct (Prim2SF (Z.ldexp 1 k)) as [ | | | [ | ] m e]; try discriminate Hin.
  apply andb_prop in Hin. destruct Hin as [Hm He].
  apply Z.eqb_eq in Hm. apply Z.eqb_eq in He. subst e.
  change (2 ^ 52)%positive with 4503599627370496%positive.
  change (2 ^ 52)%Z with (Zpos 4503599627370496) in Hm. injection Hm as ->. reflexivity.
Qed.

(** X1: on a 32-bit integer (signed or unsigned range), [isPowerOfTwo] is
    true exactly when the integer's 32-bit word has one set bit, or the
    integer is 0. *)
Theorem isPowerOfTwo_word (v : Z) :
  (- 2 ^ 31 <= v < 2 ^ 32)%Z ->
  (isPowerOfTwo (Z2F v) = true <-> popcount32 v = 1%nat \/ v = 0%Z).
Proof.
  intros Hv. rewrite isPowerOfTwo_Z2F by lia.
  rewrite Z.eqb_eq, (land_wrap32_pred v Hv), popcount32_one. tauto.
Qed.

Lemma isPowerOfTwo_word_witness :
  isPowerOfTwo (Z2F 64) = true <-> popcount32 64 = 1%nat \/ 64%Z = 0%Z.
Proof. apply (isPowerOfTwo_word 64). lia. Defined.

(** X2: [isPowerOfTwo] reads the low 32 bits only: two integers that
    differ by a multiple of 2^32 get the same answer (so 3 * 2^32 is
    accepted, as 0 is). *)
Theorem isPowerOfTwo_low_bits (v k : Z) :
  (Z.abs v < 2 ^ 52)%Z -> (Z.abs (v + k * 2 ^ 32) < 2 ^ 52)%Z ->
  isPowerOfTwo (Z2F (v + k * 2 ^ 32)) = isPowerOfTwo (Z2F v).
Proof.
  intros Hv Hk. rewrite !isPowerOfTwo_Z2F by assumption.
  replace (v + k * 2 ^ 32 - 1)%Z with (v - 1 + k * 2 ^ 32)%Z by lia.
  rewrite !wrap32_periodic. reflexivity.
Qed.

Lemma isPowerOfTwo_low_bits_witness :
  isPowerOfTwo (Z2F (0 + 3 * 2 ^ 32)) = isPowerOfTwo (Z2F 0).
Proof. apply (isPowerOfTwo_low_bits 0 3); vm_compute; reflexivity. Defined.

(** X3: every Number that is a power of two, from 2^0 to 2^1023, is
    accepted by [isPowerOfTwo]. *)
Theorem isPowerOfTwo_pow2 (k : Z) :
  (0 <= k <= 1023)%Z ->
  Prim2SF (Z.ldexp 1 k) = S754_finite false (2 ^ 52) (k - 52) /\
  isPowerOfTwo (Z.ldexp 1 k) = true.
Proof.
  intros Hk. split; [ apply ldexp_one_repr; exact Hk | ].
  assert (H : forallb (fun n => isPowerOfTwo (Z.ldexp 1 (Z.of_nat n))) (seq 0 1024) = true)
    by (vm_compute; reflexivity).
  rewrite forallb_forall in H. specialize (H (Z.to_nat k)).
  rewrite Z2Nat.id in H by lia. apply H. apply in_seq. lia.
Qed.

Lemma isPowerOfTwo_pow2_witness : isPowerOfTwo (Z.ldexp 1 40) = true.
Proof. apply (isPowerOfTwo_pow2 40). lia. Defined.

(** X4: on a 32-bit integer (signed or unsigned range), [isPowerOfFour]
    is true exactly on the powers of four. *)
Theorem isPowerOfFour_word (v : Z) :
  (- 2 ^ 31 <= v < 2 ^ 32)%Z ->
  (isPowerOfFour (Z2F v) = true <-> power_of 4 v).
Proof.
  intros Hv. split.
  - rewrite isPowerOfFour_Z2F by lia.
    destruct ((v =? 0)%Z || (v =? 2)%Z || (v =? 3)%Z) eqn:E023; [ discriminate | ].
    destruct (Z.eqb_spec v 1) as [-> | Hv1]; [ intros _; exists 0%Z; split; [ lia | reflexivity ] | ].
    intros H. apply andb_prop in H. destruct H as [H2 Hm].
    apply Z.eqb_eq in H2. apply Z.eqb_eq in Hm.
    apply (land_wrap32_pred v Hv) in H2.
    destruct H2 as [-> | [i [Hi E]]]; [ discriminate E023 | ].
    rewrite <- (wrap32_mod v), E in Hm. destruct (mask_even i Hi Hm) as [Hi31 Hev].
    assert (H2i : (0 < 2 ^ i < 2 ^ 31)%Z).
    { split; [ apply Z.pow_pos_nonneg; lia | apply Z.pow_lt_mono_r; lia ]. }
    assert (Hvi : v = (2 ^ i)%Z).
    { destruct (Z.lt_ge_cases v 0) as [Hn | Hp].
      - assert (v mod 2 ^ 32 = v + 2 ^ 32)%Z by (symmetry; apply Z.mod_unique with (q := (-1)%Z); lia). lia.
      - rewrite Z.mod_small in E by lia. exact E. }
    apply Z.even_spec in Hev. destruct Hev as [j Hj].
    exists j. split; [ lia | ]. rewrite Hvi, Hj. rewrite Z.pow_mul_r by lia. reflexivity.
  - intros [k [Hk ->]].
    assert (Hk16 : (k < 16)%Z).
    { apply (Z.pow_lt_mono_r_iff 4); [ lia | lia | ]. change (4 ^ 16)%Z with (2 ^ 32)%Z. lia. }
    assert (Hall : forallb (fun n => isPowerOfFour (Z2F (4 ^ Z.of_nat n))) (seq 0 16) = true)
      by (vm_compute; reflexivity).
    rewrite forallb_forall in Hall. specialize (Hall (Z.to_nat k)).
    rewrite Z2Nat.id in Hall by lia. apply Hall. apply in_seq. lia.
Qed.

Lemma isPowerOfFour_word_witness :
  isPowerOfFour (Z2F 256) = true <-> power_of 4 256.
Proof. apply (isPowerOfFour_word 256). lia. Defined.

(** X5: beyond 32 bits [isPowerOfFour] accepts every power of two, the odd
    powers included: it is true at 2^k for 32 <= k <= 1023 (2^33 is no
    power of four). *)
Theorem isPowerOfFour_beyond_32_bits (k : Z) :
  (32 <= k <= 1023)%Z ->
  Prim2SF (Z.ldexp 1 k) = S754_finite false (2 ^ 52) (k - 52) /\
  isPowerOfFour (Z.ldexp 1 k) = true.
Proof.
  intros Hk. split; [ apply ldexp_one_repr; lia | ].
  assert (H : forallb (fun n => isPowerOfFour (Z.ldexp 1 (Z.of_nat n))) (seq 32 992) = true)
    by (vm_compute; reflexivity).
  rewrite forallb_forall in H. specialize (H (Z.to_nat k)).
  rewrite Z2Nat.id in H by lia. apply H. apply in_seq. lia.
Qed.

Lemma isPowerOfFour_beyond_32_bits_witness : isPowerOfFour (Z.ldexp 1 33) = true.
Proof. apply (isPowerOfFour_beyond_32_bits 33). lia. Defined.

(** *** [nextPowerOfTwo] *)

(** X6: for every integer 1 <= v <= 2^31, [nextPowerOfTwo] returns the
    smallest power of two that is at least [v]. *)
Theorem nextPowerOfTwo_smallest (v : Z) :
  (1 <= v <= 2 ^ 31)%Z ->
  exists k, (0 <= k)%Z /\ nextPowerOfTwo (Z2F v) = Z2F (2 ^ k) /\
            (v <= 2 ^ k)%Z /\ forall j, (0 <= j)%Z -> (v <= 2 ^ j)%Z -> (2 ^ k <= 2 ^ j)%Z.
Proof.
  intros Hv. exists (Z.log2_up v). split; [ apply Z.log2_up_nonneg | ].
  split; [ apply nextPowerOfTwo_log2_up; exact Hv | ].
  split.
  - destruct (Z.eq_dec v 1) as [-> | Hv1]; [ reflexivity | ].
    apply Z.log2_up_spec. lia.
  - intros j Hj Hle. apply Z.pow_le_mono_r; [ lia | ].
    apply Z.log2_up_le_pow2; lia.
Qed.

Lemma nextPowerOfTwo_smallest_witness :
  exists k, (0 <= k)%Z /\ nextPowerOfTwo (Z2F 10000) = Z2F (2 ^ k) /\
            (10000 <= 2 ^ k)%Z /\ forall j, (0 <= j)%Z -> (10000 <= 2 ^ j)%Z -> (2 ^ k <= 2 ^ j)%Z.
Proof. apply (nextPowerOfTwo_smallest 10000). lia. Defined.

(** X7: outside that range the result is 0, which is no power of two: for
    every integer in (-2^31, 0] and in (2^31, 2^32]. *)
Theorem nextPowerOfTwo_zero_outside (v : Z) :
  (- 2 ^ 31 < v <= 0)%Z \/ (2 ^ 31 < v <= 2 ^ 32)%Z ->
  nextPowerOfTwo (Z2F v) = 0.
Proof.
  intros Hv. rewrite nextPowerOfTwo_Z2F by lia.
  assert (Hw : (- 2 ^ 31 <= wrap32 (v - 1) < 0)%Z).
  { destruct Hv as [Hv | Hv].
    - rewrite wrap32_small by lia. lia.
    - rewrite (wrap32_unique (v - 1) (-1)) by lia. lia. }
  rewrite smear_neg by exact Hw. reflexivity.
Qed.

Lemma nextPowerOfTwo_zero_outside_witness : nextPowerOfTwo (Z2F (-5)) = 0.
Proof. apply (nextPowerOfTwo_zero_outside (-5)). left. lia. Defined.

(** X8: on 1 .. 2^31 [nextPowerOfTwo] is idempotent: a result is a power
    of two, and powers of two are returned unchanged. *)
Theorem nextPowerOfTwo_idempotent (v : Z) :
  (1 <= v <= 2 ^ 31)%Z ->
  nextPowerOfTwo (nextPowerOfTwo (Z2F v)) = nextPowerOfTwo (Z2F v).
Proof.
  intros Hv. rewrite (nextPowerOfTwo_log2_up v Hv).
  assert (Hk : (0 <= Z.log2_up v <= 31)%Z).
  { split; [ apply Z.log2_up_nonneg | apply Z.log2_up_le_pow2; lia ]. }
  assert (Hp : (1 <= 2 ^ Z.log2_up v <= 2 ^ 31)%Z).
  { split; [ pose proof (Z.pow_pos_nonneg 2 (Z.log2_up v)); lia | apply Z.pow_le_mono_r; lia ]. }
  rewrite (nextPowerOfTwo_log2_up _ Hp). rewrite Z.log2_up_pow2 by lia. reflexivity.
Qed.

Lemma nextPowerOfTwo_idempotent_witness :
  nextPowerOfTwo (nextPowerOfTwo (Z2F 5)) = nextPowerOfTwo (Z2F 5).
Proof. apply (nextPowerOfTwo_idempotent 5). lia. Defined.

(** *** [round] *)

(** X9: when 0.5 + num * 10^dec lies in [-2^31, 2^31), [round] truncates it
    toward zero before dividing: the result is trunc(0.5 + num * 10^dec) /
    10^dec, for a negative value too. *)
Theorem round_truncates (Math_pow : float -> float -> float) (num : float) (dec : option float) :
  let powres := Math_pow 10 (match dec with Some d => d | None => 0 end) in
  let y := 0.5 + num * powres in
  (-0x1p31 <=? y) = true -> (y <? 0x1p31) = true ->
  round Math_pow num dec = Z2F (truncate y) / powres.
Proof.
  intros powres y Hge Hlt. unfold round. fold powres. fold y.
  rewrite double_bitnot_truncate by assumption. reflexivity.
Qed.

Lemma round_truncates_witness :
  round Math_pow_ref (-1.7) None = Z2F (truncate (0.5 + -1.7 * Math_pow_ref 10 0)) / Math_pow_ref 10 0.
Proof. apply (round_truncates Math_pow_ref (-1.7) None); reflexivity. Defined.

(** X10: when 0.5 + num * 10^dec lies in [0, 2^31), [round] is
    floor(0.5 + num * 10^dec) / 10^dec. *)
Theorem round_floor (Math_pow : float -> float -> float) (num : float) (dec : option float) :
  let powres := Math_pow 10 (match dec with Some d => d | None => 0 end) in
  let y := 0.5 + num * powres in
  (0 <=? y) = true -> (y <? 0x1p31) = true ->
  round Math_pow num dec = Math_floor y / powres.
Proof.
  intros powres y Hge Hlt. unfold round. fold powres. fold y.
  rewrite double_bitnot_truncate by (try apply nonneg_ge_neg_pow31; assumption).
  rewrite floor_truncate; [ reflexivity | assumption | assumption | ].
  apply half_plus_not_neg_zero.
Qed.

Lemma round_floor_witness :
  round Math_pow_ref 10.33333 (Some 2) =
  Math_floor (0.5 + 10.33333 * Math_pow_ref 10 2) / Math_pow_ref 10 2.
Proof. apply (round_floor Math_pow_ref 10.33333 (Some 2)); reflexivity. Defined.

(** X11: [round] does not propagate NaN or an infinity: when 0.5 + num *
    10^dec is NaN or infinite the result is 0 / 10^dec. *)
Theorem round_not_finite (Math_pow : float -> float -> float) (num : float) (dec : option float) :
  let powres := Math_pow 10 (match dec with Some d => d | None => 0 end) in
  let y := 0.5 + num * powres in
  is_nan y || is_infinity y = true ->
  round Math_pow num dec = 0 / powres.
Proof.
  intros powres y H. unfold round. fold powres. fold y.
  rewrite double_bitnot. unfold ToInt32.
  rewrite truncate_not_finite by exact H. reflexivity.
Qed.

Lemma round_not_finite_witness :
  round Math_pow_ref nan None = 0 / Math_pow_ref 10 0.
Proof. apply (round_not_finite Math_pow_ref nan None). reflexivity. Defined.

(** *** [clamp] *)

(** X12: with low <= high and [val] not NaN, the result of [clamp] lies
    between [low] and [high]. *)
Theorem clamp_within (val low high : float) :
  (low <=? high) = true -> is_nan val = false ->
  (low <=? clamp val low high) = true /\ (clamp val low high <=? high) = true.
Proof.
  intros Hlh Hval. destruct (leb_true_not_nan _ _ Hlh) as [Hlow Hhigh].
  unfold clamp, unary_plus, gtb.
  destruct (val <? low) eqn:E1.
  - split; [ apply leb_refl; exact Hlow | exact Hlh ].
  - destruct (high <? val) eqn:E2.
    + split; [ exact Hlh | apply leb_refl; exact Hhigh ].
    + split; apply ltb_false_leb; assumption.
Qed.

Lemma clamp_within_witness :
  (0 <=? clamp 11 0 10) = true /\ (clamp 11 0 10 <=? 10) = true.
Proof. apply (clamp_within 11 0 10); reflexivity. Defined.

(** X13: with low <= high, clamping twice is clamping once. *)
Theorem clamp_idempotent (val low high : float) :
  (low <=? high) = true ->
  clamp (clamp val low high) low high = clamp val low high.
Proof.
  intros Hlh. destruct (is_nan val) eqn:Hval.
  - assert (E : clamp val low high = val).
    { unfold clamp, unary_plus, gtb.
      rewrite (ltb_nan_l val low Hval), (ltb_nan_r high val Hval). reflexivity. }
    rewrite !E. reflexivity.
  - destruct (clamp_within val low high Hlh Hval) as [H1 H2].
    generalize dependent (clamp val low high). intros r H1 H2.
    unfold clamp, unary_plus, gtb.
    rewrite (leb_true_ltb r low H1), (leb_true_ltb high r H2). reflexivity.
Qed.

Lemma clamp_idempotent_witness :
  clamp (clamp 11 0 10) 0 10 = clamp 11 0 10.
Proof. apply (clamp_idempotent 11 0 10). reflexivity. Defined.

(** X14: [clamp] returns a NaN [val] as it is, whatever the limits. *)
Theorem clamp_nan (val low high : float) :
  is_nan val = true -> clamp val low high = val.
Proof.
  intros Hval. unfold clamp, unary_plus, gtb.
  rewrite (ltb_nan_l val low Hval), (ltb_nan_r high val Hval). reflexivity.
Qed.

Lemma clamp_nan_witness : clamp nan 0 10 = nan.
Proof. apply (clamp_nan nan 0 10). reflexivity. Defined.

(** *** [toBeCloseTo] *)

(** X15: [toBeCloseTo] is false as soon as one of the two values is NaN. *)
Theorem toBeCloseTo_nan (Math_pow : float -> float -> float)
    (expected actual : float) (precision : option float) :
  is_nan expected || is_nan actual = true ->
  toBeCloseTo Math_pow expected actual precision = false.
Proof.
  intros H. unfold toBeCloseTo, Math_abs. apply ltb_nan_l.
  apply is_nan_true. rewrite FloatAxioms.abs_spec, FloatAxioms.sub_spec.
  apply orb_prop in H. destruct H as [H | H]; apply is_nan_true in H; rewrite H.
  - reflexivity.
  - destruct (Prim2SF expected); reflexivity.
Qed.

Lemma toBeCloseTo_nan_witness : toBeCloseTo Math_pow_ref nan 1 None = false.
Proof. apply (toBeCloseTo_nan Math_pow_ref nan 1 None). reflexivity. Defined.

(** X16: a finite value is close to itself exactly when the threshold
    10^-precision / 2 is positive. *)
Theorem toBeCloseTo_refl (Math_pow : float -> float -> float)
    (a : float) (precision : option float) :
  is_nan a = false -> is_infinity a = false ->
  toBeCloseTo Math_pow a a precision =
  (0 <? Math_pow 10 (- match precision with Some p => p | None => 2 end) / 2).
Proof.
  intros Hn Hi. unfold toBeCloseTo, Math_abs. rewrite (sub_diag a Hn Hi). reflexivity.
Qed.

Lemma toBeCloseTo_refl_witness :
  toBeCloseTo Math_pow_ref 10 10 None = (0 <? Math_pow_ref 10 (- 2) / 2).
Proof. apply (toBeCloseTo_refl Math_pow_ref 10 None); reflexivity. Defined.

(** X17: an infinity is never close to itself. *)
Theorem toBeCloseTo_infinity (Math_pow : float -> float -> float)
    (a : float) (precision : option float) :
  is_infinity a = true ->
  toBeCloseTo Math_pow a a precision = false.
Proof.
  intros Hi. unfold toBeCloseTo, Math_abs. apply ltb_nan_l.
  apply is_nan_true. rewrite FloatAxioms.abs_spec, FloatAxioms.sub_spec.
  unfold is_infinity in Hi. rewrite FloatAxioms.eqb_spec, FloatAxioms.abs_spec in Hi.
  change (Prim2SF infinity) with (S754_infinity false) in Hi.
  destruct (Prim2SF a) as [s | s | | s m e]; cbn in Hi; try discriminate Hi.
  destruct s; reflexivity.
Qed.

Lemma toBeCloseTo_infinity_witness :
  toBeCloseTo Math_pow_ref infinity infinity None = false.
Proof. apply (toBeCloseTo_infinity Math_pow_ref infinity None); reflexivity. Defined.

(** *** The angle conversions *)

(** X18: both conversions are odd: negating the angle negates the result,
    for every Number (signed zeros and infinities included). *)
Theorem angle_conversions_odd (angle : float) :
  degToRad (- angle) = - degToRad angle /\ radToDeg (- angle) = - radToDeg angle.
Proof. unfold degToRad, radToDeg. split; apply mul_opp_l. Qed.

(** *** The random helpers *)

(** X19: for integer limits min < max at most 2^31 apart and a sample r of
    [Math.random()] in [0, 1), [random] is floor(r * (max - min)) + min and
    it is an integer n with min <= n < max. *)
Theorem random_in_range (r : float) (a b : Z) :
  (0 <=? r) = true -> (r <? 1) = true ->
  (Z.abs a < 2 ^ 52)%Z -> (Z.abs b < 2 ^ 52)%Z -> (a < b)%Z -> (b - a <= 2 ^ 31)%Z ->
  random r (Z2F a) (Z2F b) = Math_floor (r * (Z2F b - Z2F a)) + Z2F a /\
  exists n, random r (Z2F a) (Z2F b) = Z2F n /\ (a <= n < b)%Z.
Proof. apply random_value. Qed.

Lemma random_in_range_witness :
  random 0.999 (Z2F 5) (Z2F 10) = Math_floor (0.999 * (Z2F 10 - Z2F 5)) + Z2F 5 /\
  exists n, random 0.999 (Z2F 5) (Z2F 10) = Z2F n /\ (5 <= n < 10)%Z.
Proof. apply (random_in_range 0.999 5 10); (reflexivity || lia). Defined.

(** X20: when the limits are more than 2^31 apart the 32-bit truncation
    wraps and [random] can leave the interval, even for limits that are
    32-bit integers: with the sample 0.75, random(-2147483648, 2147483647)
    is below the minimum. *)
Theorem random_wraps :
  exists (r : float) (a b : Z),
    (0 <=? r) = true /\ (r <? 1) = true /\
    (- 2 ^ 31 <= a)%Z /\ (a < b)%Z /\ (b < 2 ^ 31)%Z /\
    (random r (Z2F a) (Z2F b) <? Z2F a) = true.
Proof.
  exists 0.75, (-2147483648)%Z, 2147483647%Z.
  repeat split; try reflexivity; try discriminate.
Qed.



(** X22: [randomFloat] can return its upper limit, which its comment
    excludes: with the largest sample below 1, randomFloat(1, 2) is 2. *)
Theorem randomFloat_reaches_max :
  exists r, (0 <=? r) = true /\ (r <? 1) = true /\ randomFloat r 1 2 = 2.
Proof.
  exists 0x1.fffffffffffffp-1. repeat split; reflexivity.
Qed.

(** *** NaN and the infinities *)

Lemma not_finite_cases (x : float) :
  is_nan x || is_infinity x = true ->
  Prim2SF x = S754_nan \/ exists s, Prim2SF x = S754_infinity s.
Proof.
  intros H. apply orb_prop in H. destruct H as [H | H].
  - left. apply is_nan_true. exact H.
  - unfold is_infinity in H. rewrite FloatAxioms.eqb_spec, FloatAxioms.abs_spec in H.
    change (Prim2SF infinity) with (S754_infinity false) in H.
    destruct (Prim2SF x) as [s | s | | s m e]; cbn in H; try discriminate H.
    right. exists s. reflexivity.
Qed.

Lemma eqb_not_finite (x c : float) :
  is_nan x || is_infinity x = true -> is_nan c || is_infinity c = false ->
  (x =? c) = false.
Proof.
  intros Hx Hc. rewrite FloatAxioms.eqb_spec.
  apply orb_false_elim in Hc. destruct Hc as [Hn Hi].
  apply is_nan_false in Hn. pose proof (fun s => not_infinity c s Hi) as Hi'.
  destruct (not_finite_cases x Hx) as [-> | [s ->]]; [ reflexivity | ].
  destruct (Prim2SF c) as [sc | sc | | sc mc ec]; try congruence;
    destruct s; reflexivity.
Qed.

Lemma sub_one_not_finite (x : float) :
  is_nan x || is_infinity x = true -> truncate (x - 1) = 0%Z.
Proof.
  intros H. unfold truncate. rewrite FloatAxioms.sub_spec.
  change (Prim2SF 1) with (S754_finite false 4503599627370496 (-52)).
  destruct (not_finite_cases x H) as [-> | [s ->]]; reflexivity.
Qed.

(** X23: both power tests accept NaN and the infinities. *)
Theorem power_tests_accept_not_finite (val : float) :
  is_nan val || is_infinity val = true ->
  isPowerOfTwo val = true /\ isPowerOfFour val = true.
Proof.
  intros H.
  assert (H2 : isPowerOfTwo val = true).
  { unfold isPowerOfTwo, bitand, ToInt32. rewrite (truncate_not_finite val H). reflexivity. }
  split; [ exact H2 | ].
  unfold isPowerOfFour. fold (isPowerOfTwo val). rewrite H2.
  rewrite !(eqb_not_finite val) by (exact H || reflexivity).
  unfold bitand, ToInt32. rewrite (truncate_not_finite val H). reflexivity.
Qed.

Lemma power_tests_accept_not_finite_witness :
  isPowerOfTwo nan = true /\ isPowerOfFour nan = true.
Proof. apply (power_tests_accept_not_finite nan). reflexivity. Defined.

(** X24: [nextPowerOfTwo] turns NaN and the infinities into 1. *)
Theorem nextPowerOfTwo_not_finite (val : float) :
  is_nan val || is_infinity val = true -> nextPowerOfTwo val = 1.
Proof.
  intros H. unfold nextPowerOfTwo. cbv zeta.
  assert (E : (val - 1) ||| ((val - 1) >> 1) = 0).
  { unfold bitor, sar, ToInt32. rewrite !(sub_one_not_finite val H). reflexivity. }
  rewrite E. reflexivity.
Qed.

Lemma nextPowerOfTwo_not_finite_witness : nextPowerOfTwo infinity = 1.
Proof. apply (nextPowerOfTwo_not_finite infinity). reflexivity. Defined.

(** X25: with the default [dec] (and 10^0 = 1), [round] leaves a
    non-negative 32-bit integer unchanged but maps a negative one to its
    successor: round(-1) is 0 and round(-3) is -2. *)
Theorem round_integer (Math_pow : float -> float -> float) (t : Z) :
  Math_pow 10 0 = 1 -> (- 2 ^ 31 <= t < 2 ^ 31)%Z ->
  round Math_pow (Z2F t) None = Z2F (if (t <? 0)%Z then t + 1 else t).
Proof.
  intros Hpow Ht. unfold round. rewrite Hpow, mul_one_r, div_one_r.
  rewrite double_bitnot. unfold ToInt32. rewrite (truncate_half_plus t Ht).
  rewrite wrap32_small; [ reflexivity | ].
  destruct (Z.ltb_spec t 0); lia.
Qed.

Lemma round_integer_witness :
  round Math_pow_ref (Z2F (-3)) None = Z2F (-2).
Proof. apply (round_integer Math_pow_ref (-3)); [ reflexivity | lia ]. Defined.

End MathMore.
